(** * phylop_scores: the sampling-and-scoring core of [lib/features.py]
      and [lib/libtools.py], embedded in Rocq.

    The Python code is embedded shallowly:
    - Python integers are [Z]; the score field (a Python float) is
      idealised as an exact rational [Q], so that "arithmetic mean" has
      its mathematical meaning;
    - a BED string such as ["chr1\t10\t20"] is the constructor
      [BedLine "chr1" 10 20]; the sentinel ["NA\tNA\tNA"] is [NA_line];
    - a [BedTool] (and a sorted BED file on disk) is the list of its
      records, in file order; the empty string [''] that
      [run_bedextract] returns for the sentinel and an empty [BedTool]
      are both the empty list (pybedtools compares a [BedTool] with a
      string through its text, so [x != ''] holds exactly when [x] has a
      record);
    - the module [random] is a reader of an infinite sequence of raw
      draws; every result that [random] can produce is produced by some
      sequence;
    - an uncaught Python exception is the outcome [Raise]. *)

From Stdlib Require Import ZArith QArith String Ascii List Lia.
From stdpp Require Import base option list gmap strings.

Local Open Scope string_scope.
Local Open Scope Z_scope.

(** ** Python runtime: exceptions, outcomes, the random module *)

Module Py.

Inductive exn : Type :=
  | IndexError
  | ValueError
  | UnboundLocalError.

(** What running a piece of code gives: a value, an uncaught exception,
    or [OutOfFuel] when a loop used up its fuel before it left by
    itself. *)
Inductive outcome (A : Type) : Type :=
  | Ret (a : A)
  | Raise (e : exn)
  | OutOfFuel.

Arguments Ret {A} a.
Arguments Raise {A} e.
Arguments OutOfFuel {A}.

(** The state of the generator: the raw draws still to come. *)
Definition rng : Type := nat -> N.

Definition rng_tail (g : rng) : rng := fun i => g (S i).

(** Code that draws random numbers and may raise. *)
Definition M (A : Type) : Type := rng -> outcome (A * rng).

Definition ret {A} (a : A) : M A := fun g => Ret (a, g).

Definition throw {A} (e : exn) : M A := fun _ => Raise e.

Definition bind {A B} (m : M A) (k : A -> M B) : M B :=
  fun g => match m g with
           | Ret (a, g') => k a g'
           | Raise e => Raise e
           | OutOfFuel => OutOfFuel
           end.

(** [seq[i]] on a Python list. *)
Definition index {A} (l : list A) (i : nat) : M A :=
  match l !! i with
  | Some a => ret a
  | None => throw IndexError
  end.

(** An integer below [n], for [0 < n]. *)
Definition randbelow (n : Z) : M Z :=
  fun g => Ret (Z.of_N (g 0%nat) mod n, rng_tail g).

(** [random.randrange(start, stop)]: [ValueError] on an empty range. *)
Definition randrange (start stop : Z) : M Z :=
  let width := stop - start in
  if 0 <? width then bind (randbelow width) (fun r => ret (start + r))
  else throw ValueError.

(** [x[i], x[j] = x[j], x[i]] *)
Definition swap {A} (x : list A) (i j : nat) : list A :=
  match x !! i, x !! j with
  | Some a, Some b => <[j:=a]> (<[i:=b]> x)
  | _, _ => x
  end.

(** [random.shuffle(x)]:
    [for i in reversed(xrange(1, len(x))): j = randbelow(i+1); swap]. *)
Fixpoint shuffle_from {A} (i : nat) (x : list A) : M (list A) :=
  match i with
  | O => ret x
  | S i' => bind (randbelow (Z.of_nat (S i)))
                 (fun j => shuffle_from i' (swap x i (Z.to_nat j)))
  end.

Definition shuffle {A} (x : list A) : M (list A) :=
  shuffle_from (length x - 1)%nat x.

(** [random.choice(seq)] *)
Definition choice {A} (seq : list A) : M A :=
  match seq with
  | [] => throw IndexError
  | _ => bind (randbelow (Z.of_nat (length seq)))
              (fun i => index seq (Z.to_nat i))
  end.

(** [sorted([a, b])], as the pair [(result[0], result[1])]. *)
Definition sorted2 (a b : Z) : Z * Z := (Z.min a b, Z.max a b).

(** ["_" in s] and [s.split("_")] for a one-character separator. *)
Fixpoint str_contains (sep : ascii) (s : string) : bool :=
  match s with
  | EmptyString => false
  | String c s' => if Ascii.eqb c sep then true else str_contains sep s'
  end.

Fixpoint str_split (sep : ascii) (s : string) : list string :=
  match s with
  | EmptyString => [EmptyString]
  | String c s' =>
      if Ascii.eqb c sep then EmptyString :: str_split sep s'
      else match str_split sep s' with
           | h :: t => String c h :: t
           | [] => [String c EmptyString]
           end
  end.

Fixpoint str_count (sep : ascii) (s : string) : nat :=
  match s with
  | EmptyString => O
  | String c s' =>
      if Ascii.eqb c sep then S (str_count sep s') else str_count sep s'
  end.

End Py.

Export Py.

Declare Scope py_scope.
Delimit Scope py_scope with py.
Notation "'let*' x := m 'in' k" := (bind m (fun x => k))
  (at level 10, x name, m at level 100, k at level 200) : py_scope.
Local Open Scope py_scope.

(** ** lib/libtools.py *)

Module Libtools.

(** One record of a BED file, as pybedtools presents it. *)
Record Interval : Type := mkInterval {
  chrom : string;
  start : Z;
  end_ : Z;
  name : string;
  strand : string;
  score : Q
}.

(** The records of a [BedTool], or of a sorted BED file. *)
Definition BedTool : Type := list Interval.

Inductive bed_string : Type :=
  | BedLine (c : string) (s e : Z)
  | NA_line.

(** Two intervals overlap when they are on one chromosome and share at
    least one base (half-open coordinates). *)
Definition overlaps (c1 : string) (s1 e1 : Z) (c2 : string) (s2 e2 : Z)
  : bool :=
  String.eqb c1 c2 && (Z.max s1 s2 <? Z.min e1 e2).

(** [BedTool.intersect] of two one-line BedTools, as a truth value:
    the contract of the external pybedtools call in [check_overlap].
    It is only ever called on two formatted lines. *)
Definition check_overlap (feature_string query_string : bed_string) : bool :=
  match feature_string, query_string with
  | BedLine c1 s1 e1, BedLine c2 s2 e2 => overlaps c1 s1 e1 c2 s2 e2
  | _, _ => false
  end.

(** The external [bedextract bed_file -]: the records of the sorted file
    that overlap the region read from standard input, in file order. *)
Definition bedextract (bed_file : BedTool) (c : string) (s e : Z) : BedTool :=
  List.filter (fun r => overlaps (chrom r) (start r) (end_ r) c s e) bed_file.

Definition run_bedextract (bed_region : bed_string) (bed_file : BedTool)
  : BedTool :=
  match bed_region with
  | NA_line => []
  | BedLine c s e => bedextract bed_file c s e
  end.

(** [x != ''] for a query result. *)
Definition nonempty (x : BedTool) : bool :=
  match x with
  | [] => false
  | _ :: _ => true
  end.

(** The result of a simulation: a float, or one of the three strings. *)
Inductive score_value : Type :=
  | Num (q : Q)
  | NA
  | NameError1
  | NameError2.

(** [numpy.mean] of a non-empty list of floats: the sum over the count. *)
Definition np_mean (scores : list Q) : Q :=
  fold_left Qplus scores 0%Q / inject_Z (Z.of_nat (length scores)).

Definition calculate_mean_score (query_regions : BedTool) : score_value :=
  if negb (nonempty query_regions) then NA
  else
    let scores := List.map score query_regions in
    Num (np_mean scores).

End Libtools.

Export Libtools.

(** ** lib/features.py *)

Module Features.

Record Feature : Type := mkFeature {
  f_chrom : string;
  f_start : Z;
  f_end : Z;
  f_name : string;
  f_strand : string;
  f_size : Z
}.

(** [Feature.__init__] (the raw field list is kept by the class but
    read by none of its methods, and is left out). *)
Definition Feature_init (feature : Interval) : Feature :=
  {| f_chrom := chrom feature;
     f_start := start feature;
     f_end := end_ feature;
     f_name := name feature;
     f_strand := strand feature;
     f_size := end_ feature - start feature |}.

Definition flanking_regions (self : Feature) (window_r window_l : Z)
  : bed_string * bed_string :=
  let right_interval :=
    (f_end self + window_r, f_end self + f_size self + window_r) in
  let left_interval :=
    ((f_start self - window_l) - f_size self, f_start self - window_l) in
  let right := BedLine (f_chrom self) (fst right_interval) (snd right_interval) in
  let left := BedLine (f_chrom self) (fst left_interval) (snd left_interval) in
  (right, left).

(** [flanking_simulation]; [score] is assigned in a chain of four
    [if]/[elif] tests without a final [else], so leaving the chain
    without a match would fail with [UnboundLocalError] at [return]. *)
Definition flanking_simulation (self : Feature)
    (not_allowed_regions_bed query_bed : BedTool) : outcome score_value :=
  let '(right_flank, left_flank) := flanking_regions self 1 1 in
  let intersect_r := run_bedextract right_flank not_allowed_regions_bed in
  let intersect_l := run_bedextract left_flank not_allowed_regions_bed in
  if nonempty intersect_r && nonempty intersect_l then
    Ret NA
  else if nonempty intersect_r && negb (nonempty intersect_l) then
    let left_feature := run_bedextract left_flank query_bed in
    Ret (calculate_mean_score left_feature)
  else if negb (nonempty intersect_r) && nonempty intersect_l then
    let right_feature := run_bedextract right_flank query_bed in
    Ret (calculate_mean_score right_feature)
  else if negb (nonempty intersect_r) && negb (nonempty intersect_l) then
    let left_feature := run_bedextract left_flank query_bed in
    let right_feature := run_bedextract right_flank query_bed in
    let score_l := calculate_mean_score left_feature in
    let score_r := calculate_mean_score right_feature in
    match score_l, score_r with
    | Num l, Num r => Ret (Num (np_mean [l; r]))
    | Num l, NA => Ret score_l
    | NA, Num r => Ret score_r
    | NA, NA => Ret NA
    | _, _ => Raise UnboundLocalError
    end
  else Raise UnboundLocalError.

Definition MAX_ATTEMPTS : Z := 100.

(** The four retry loops of the class have one shape:
<<
    attempts = 0
    while True:
        attempts += 1
        ... body ...
        if <test>:
            result = <value>; break
        elif attempts == MAX_ATTEMPTS:
            result = <fallback>; break
>>
    [body] runs one iteration from the local variables [st] that live
    across iterations; it answers [inl value] when the test holds and
    [inr b] when it does not, and [fallback b] is the value of the
    [elif] branch. The loop also reports the final value of [attempts]. *)
Section RetryLoop.
Context {St A B : Type}.
Variable body : St -> M ((A + B) * St).
Variable fallback : B -> A.

Fixpoint retry_loop (fuel : nat) (attempts : Z) (st : St) (g : rng)
  : outcome (A * Z * rng) :=
  match fuel with
  | O => OutOfFuel
  | S fuel' =>
      let attempts := attempts + 1 in
      match body st g with
      | Ret (inl a, _, g') => Ret (a, attempts, g')
      | Ret (inr b, st', g') =>
          if attempts =? MAX_ATTEMPTS then Ret (fallback b, attempts, g')
          else retry_loop fuel' attempts st' g'
      | Raise e => Raise e
      | OutOfFuel => OutOfFuel
      end
  end.

(** The local state and generator after [n] iterations in a row in
    which the test failed. *)
Fixpoint after_rejections (n : nat) (st : St) (g : rng)
  : option (St * rng) :=
  match n with
  | O => Some (st, g)
  | S n' =>
      match body st g with
      | Ret (inr _, st', g') => after_rejections n' st' g'
      | _ => None
      end
  end.
End RetryLoop.

(** Forget the final value of [attempts]. *)
Definition run_loop {A} (r : outcome (A * Z * rng)) : outcome (A * rng) :=
  match r with
  | Ret (a, _, g) => Ret (a, g)
  | Raise e => Raise e
  | OutOfFuel => OutOfFuel
  end.

(** One iteration of the loop of [random_regions]. *)
Definition random_regions_body (self : Feature) (allowed_regions : list (Z * Z))
    (_ : unit) : M ((bed_string + unit) * unit) :=
  let feature_string := BedLine (f_chrom self) (f_start self) (f_end self) in
  let regions_copy := allowed_regions in
  let* regions_copy := shuffle regions_copy in
  let* region := index regions_copy 0 in
  let region_start := fst region in
  let region_end := snd region in
  let* random_start := randrange region_start region_end in
  let random_end := random_start + f_size self in
  let random_string := BedLine (f_chrom self) random_start random_end in
  let intersect := check_overlap feature_string random_string in
  if (random_end <? region_end) && negb intersect
  then ret (inl random_string, tt)
  else ret (inr tt, tt).

Definition random_regions_loop (self : Feature)
    (allowed_regions : list (Z * Z)) (fuel : nat)
  : rng -> outcome (bed_string * Z * rng) :=
  retry_loop (random_regions_body self allowed_regions) (fun _ => NA_line)
             fuel 0 tt.

Definition random_regions (self : Feature) (allowed_regions : list (Z * Z))
  : M bed_string :=
  fun g => run_loop (random_regions_loop self allowed_regions 100 g).

(** One iteration of the loop of [random_intragenic_simulation]. *)
Definition random_intragenic_body (self : Feature)
    (allowed_regions : list (Z * Z)) (query_bed : BedTool)
    (_ : unit) : M ((score_value + BedTool) * unit) :=
  let* random_region := random_regions self allowed_regions in
  let random_features := run_bedextract random_region query_bed in
  if nonempty random_features
  then ret (inl (calculate_mean_score random_features), tt)
  else ret (inr random_features, tt).

Definition random_intragenic_loop (self : Feature)
    (allowed_regions : list (Z * Z)) (query_bed : BedTool) (fuel : nat)
  : rng -> outcome (score_value * Z * rng) :=
  retry_loop (random_intragenic_body self allowed_regions query_bed)
             calculate_mean_score fuel 0 tt.

(** The index built by [get_regions], restricted to its tuple keys
    [(gene, transcript, chrom)]: the scalar keys it also stores are
    never equal to the tuple that is looked up here. *)
Definition random_intragenic_simulation (self : Feature)
    (allowed_regions_dict : gmap (string * string * string) (list (Z * Z)))
    (query_bed : BedTool) : M score_value :=
  if str_contains "_" (f_name self) then
    let names := str_split "_" (f_name self) in
    let* gene := index names 1 in
    let* transcript := index names 2 in
    let key := (gene, transcript, f_chrom self) in
    match allowed_regions_dict !! key with
    | Some allowed_regions =>
        fun g =>
          run_loop (random_intragenic_loop self allowed_regions query_bed 100 g)
    | None => ret NameError2
    end
  else ret NameError1.

(** One iteration of the loop of [random_flanking_regions]. The locals
    [random_start] and [random_end] are assigned inside the branches
    only, so they keep the values of the previous iteration, or are
    unbound in the first one, when no branch assigns them. *)
Definition random_flanking_body (self : Feature)
    (not_allowed_regions_bed : BedTool) (right left : Z * Z)
    (locals : option (Z * Z)) : M ((bed_string + unit) * option (Z * Z)) :=
  let feature_string := BedLine (f_chrom self) (f_start self) (f_end self) in
  let* flanking := choice [right; left] in
  let flank := BedLine (f_chrom self) (fst flanking) (snd flanking) in
  let gene_overlap := run_bedextract flank not_allowed_regions_bed in
  let* locals :=
    if nonempty gene_overlap then
      if snd flanking <? f_start self then
        let g_index := (length gene_overlap - 1)%nat in
        let* gene := index gene_overlap g_index in
        let distance := f_start self - end_ gene in
        let* random_start :=
          randrange (f_start self - distance) (f_start self) in
        let random_end := random_start + f_size self in
        ret (Some (random_start, random_end))
      else if snd flanking >? f_end self then
        let* gene := index gene_overlap 0 in
        let distance := start gene - f_end self in
        let* random_start :=
          randrange (f_end self) (f_end self + distance) in
        let random_end := random_start + f_size self in
        ret (Some (random_start, random_end))
      else ret locals
    else
      let* random_start := randrange (fst flanking) (snd flanking) in
      let random_end := random_start + f_size self in
      ret (Some (random_start, random_end)) in
  match locals with
  | None => throw UnboundLocalError
  | Some (random_start, random_end) =>
      let random_string := BedLine (f_chrom self) random_start random_end in
      let intersect := check_overlap feature_string random_string in
      if (random_end <? snd flanking) && negb intersect
      then ret (inl random_string, locals)
      else ret (inr tt, locals)
  end.

Definition flank_right (self : Feature) (window_r : Z) : Z * Z :=
  sorted2 (f_end self + 1) (f_end self + window_r).

Definition flank_left (self : Feature) (window_l : Z) : Z * Z :=
  if window_l >=? f_start self then sorted2 (f_start self - 1) 0
  else sorted2 (f_start self - 1) (f_start self - window_l).

Definition random_flanking_loop (self : Feature)
    (not_allowed_regions_bed : BedTool) (window_r window_l : Z) (fuel : nat)
  : rng -> outcome (bed_string * Z * rng) :=
  let right := flank_right self window_r in
  let left := flank_left self window_l in
  retry_loop (random_flanking_body self not_allowed_regions_bed right left)
             (fun _ => NA_line) fuel 0 None.

Definition random_flanking_regions (self : Feature)
    (not_allowed_regions_bed : BedTool) (window_r window_l : Z)
  : M bed_string :=
  fun g =>
    run_loop
      (random_flanking_loop self not_allowed_regions_bed window_r window_l
                            100 g).

(** One iteration of the loop of [random_flanking_simulation]. *)
Definition random_flanking_sim_body (self : Feature)
    (not_allowed_regions_bed query_bed : BedTool) (window_r window_l : Z)
    (_ : unit) : M ((score_value + BedTool) * unit) :=
  let* random_region :=
    random_flanking_regions self not_allowed_regions_bed window_r window_l in
  let random_features := run_bedextract random_region query_bed in
  if nonempty random_features
  then ret (inl (calculate_mean_score random_features), tt)
  else ret (inr random_features, tt).

Definition random_flanking_sim_loop (self : Feature)
    (not_allowed_regions_bed query_bed : BedTool) (window_r window_l : Z)
    (fuel : nat) : rng -> outcome (score_value * Z * rng) :=
  retry_loop
    (random_flanking_sim_body self not_allowed_regions_bed query_bed
                              window_r window_l)
    calculate_mean_score fuel 0 tt.

Definition random_flanking_simulation (self : Feature)
    (not_allowed_regions_bed query_bed : BedTool) (window_r window_l : Z)
  : M score_value :=
  fun g =>
    run_loop
      (random_flanking_sim_loop self not_allowed_regions_bed query_bed
                                window_r window_l 100 g).

End Features.

Export Features.

(** ** lib/libtools.py: the two lookup tables *)

Module Tables.

(** What can go wrong while a table is built: [name_reg[i]] out of
    range, [.append] on the string "None", and the [IOError] that
    [get_bed_files] raises itself. *)
Inductive build_exn : Type :=
  | FieldIndexError
  | AppendAttributeError
  | DirectoryIOError.

Inductive built (A : Type) : Type :=
  | Built (a : A)
  | Failed (e : build_exn).

Arguments Built {A} a.
Arguments Failed {A} e.

(** The keys of the dictionary of [get_regions]: the tuple
    [(gene, transcript, chrom)], or the bare name of a record without
    underscore; and its values: a list of [(start, end)] pairs, or the
    string "None". *)
Definition region_key : Type := (string * string * string) + string.

Inductive region_value : Type :=
  | Regions (l : list (Z * Z))
  | NoneString.

(** One iteration of the [for] loop of [get_regions]. *)
Definition get_regions_step (dict_regions : gmap region_key region_value)
    (region : Interval) : built (gmap region_key region_value) :=
  if str_contains "_" (name region) then
    let name_reg := str_split "_" (name region) in
    match name_reg !! 0%nat, name_reg !! 1%nat with
    | Some gene, Some transcript =>
        let key : region_key := inl (gene, transcript, chrom region) in
        match dict_regions !! key with
        | Some (Regions l) =>
            Built (<[key := Regions (l ++ [(start region, end_ region)])]>
                     dict_regions)
        | Some NoneString => Failed AppendAttributeError
        | None =>
            Built (<[key := Regions [(start region, end_ region)]]>
                     dict_regions)
        end
    | _, _ => Failed FieldIndexError
    end
  else Built (<[inr (name region) := NoneString]> dict_regions).

Fixpoint get_regions_from (dict_regions : gmap region_key region_value)
    (regions_bed : BedTool) : built (gmap region_key region_value) :=
  match regions_bed with
  | [] => Built dict_regions
  | region :: rest =>
      match get_regions_step dict_regions region with
      | Built d => get_regions_from d rest
      | Failed e => Failed e
      end
  end.

Definition get_regions (regions_bed : BedTool)
  : built (gmap region_key region_value) :=
  get_regions_from ∅ regions_bed.

(** What a lookup with a tuple key sees of the dictionary: the entries
    under tuple keys that hold a list. In a dictionary built by
    [get_regions] every tuple key holds a list; the drivers are stated
    for such dictionaries. *)
Definition tuple_index (dict_regions : gmap region_key region_value)
  : gmap (string * string * string) (list (Z * Z)) :=
  map_fold (fun (k : region_key) (v : region_value) acc =>
              match k, v with
              | inl key, Regions l => <[key := l]> acc
              | _, _ => acc
              end) ∅ dict_regions.

(** [f.split("/")[-1]] and [f.split(".")[0]] *)
Definition basename (f : string) : string :=
  List.last (str_split "/" f) EmptyString.

Definition chrom_prefix (f : string) : string :=
  List.hd EmptyString (str_split "." f).

(** [get_bed_files]; [path_exists] is the answer of [os.path.exists]
    and [globbed] the list that [glob.glob(dir_name + "/*.bed")]
    returns. A dictionary comprehension keeps the last value of a key. *)
Definition get_bed_files (path_exists : bool) (globbed : list string)
    (dir_name : string) : built (gmap string string) :=
  if negb path_exists then Failed DirectoryIOError
  else
    let bed_files := globbed in
    let filenames := List.map basename bed_files in
    Built (fold_left
             (fun dict_files f =>
                <[chrom_prefix f := String.append dir_name
                                      (String.append "/" f)]> dict_files)
             filenames ∅).

End Tables.

Export Tables.

(** ** simulation_features.py *)

Module SimulationFeatures.

(** A line printed on standard output: the message for a chromosome
    without score file, or a feature name followed by its scores. *)
Inductive out_line : Type :=
  | MissingBed (chrom : string)
  | ScoreLine (name : string) (scores : list score_value).

(** The files on disk are read through [disk], from a path to the
    records of the sorted BED file at that path. The lines printed
    before an exception stay printed: a run gives its output and how it
    ended. *)
Section Drivers.
Variable disk : string -> BedTool.

Fixpoint call_flanking_simulation (features : BedTool)
    (bed_files : gmap string string) (not_allowed_regions_bed : string)
  : list out_line * outcome unit :=
  match features with
  | [] => ([], Ret tt)
  | f :: rest =>
      let feature := Feature_init f in
      match bed_files !! f_chrom feature with
      | None =>
          let '(out, r) :=
            call_flanking_simulation rest bed_files not_allowed_regions_bed in
          (MissingBed (f_chrom feature) :: out, r)
      | Some query_bed =>
          match flanking_simulation feature (disk not_allowed_regions_bed)
                                    (disk query_bed) with
          | Ret score =>
              let '(out, r) :=
                call_flanking_simulation rest bed_files
                                         not_allowed_regions_bed in
              (ScoreLine (f_name feature) [score] :: out, r)
          | Raise e => ([], Raise e)
          | OutOfFuel => ([], OutOfFuel)
          end
      end
  end.

(** [for n in range(0, number): scores.append(simulation())] *)
Fixpoint repeat_simulation (simulation : M score_value) (n : nat)
  : M (list score_value) :=
  match n with
  | O => ret []
  | S n' =>
      let* score := simulation in
      let* scores := repeat_simulation simulation n' in
      ret (score :: scores)
  end.

(** The loop over the features that the two random drivers share:
    [simulation feature query_bed] is the call that is repeated. *)
Fixpoint call_random_simulation
    (simulation : Feature -> string -> M score_value)
    (features : BedTool) (bed_files : gmap string string) (number : Z)
    (g : rng) : list out_line * outcome rng :=
  match features with
  | [] => ([], Ret g)
  | f :: rest =>
      let feature := Feature_init f in
      match bed_files !! f_chrom feature with
      | None =>
          let '(out, r) :=
            call_random_simulation simulation rest bed_files number g in
          (MissingBed (f_chrom feature) :: out, r)
      | Some query_bed =>
          match repeat_simulation (simulation feature query_bed)
                                  (Z.to_nat number) g with
          | Ret (scores, g') =>
              let '(out, r) :=
                call_random_simulation simulation rest bed_files number g' in
              (ScoreLine (f_name feature) scores :: out, r)
          | Raise e => ([], Raise e)
          | OutOfFuel => ([], OutOfFuel)
          end
      end
  end.

Definition call_random_intragenic_simulation (features : BedTool)
    (bed_files : gmap string string)
    (allowed_regions_dict : gmap region_key region_value) (number : Z)
  : rng -> list out_line * outcome rng :=
  call_random_simulation
    (fun feature query_bed =>
       random_intragenic_simulation feature
         (tuple_index allowed_regions_dict) (disk query_bed))
    features bed_files number.

Definition call_random_flanking_simulation (features : BedTool)
    (bed_files : gmap string string) (not_allowed_regions_bed : string)
    (number window_r window_l : Z)
  : rng -> list out_line * outcome rng :=
  call_random_simulation
    (fun feature query_bed =>
       random_flanking_simulation feature (disk not_allowed_regions_bed)
         (disk query_bed) window_r window_l)
    features bed_files number.

End Drivers.

End SimulationFeatures.

Export SimulationFeatures.

(** * Properties *)

(** ** The random module *)

Section RandomFacts.

Lemma randbelow_range (n : Z) (g g' : rng) (r : Z) :
  0 < n -> randbelow n g = Ret (r, g') -> 0 <= r < n.
Proof.
  intros Hn H. unfold randbelow in H. injection H as <- _.
  apply Z.mod_pos_bound. exact Hn.
Qed.

Lemma randrange_range (a b : Z) (g g' : rng) (r : Z) :
  randrange a b g = Ret (r, g') -> a <= r < b.
Proof.
  unfold randrange. destruct (0 <? b - a) eqn:Hw; [|discriminate].
  apply Z.ltb_lt in Hw. unfold bind.
  destruct (randbelow (b - a) g) as [[k g1]| |] eqn:Hk; try discriminate.
  intros H. injection H as <- _.
  apply randbelow_range in Hk; lia.
Qed.

Lemma randrange_empty (a b : Z) (g : rng) :
  b <= a -> randrange a b g = Raise ValueError.
Proof.
  intros H. unfold randrange.
  destruct (0 <? b - a) eqn:Hw; [apply Z.ltb_lt in Hw; lia | reflexivity].
Qed.

Lemma randrange_cases (a b : Z) (g : rng) :
  (exists r g', randrange a b g = Ret (r, g')) \/
  randrange a b g = Raise ValueError.
Proof.
  unfold randrange. destruct (0 <? b - a); [left | right; reflexivity].
  unfold bind, randbelow, ret. eauto.
Qed.

Lemma elem_of_insert_inv {A} (l : list A) (i : nat) (a y : A) :
  y ∈ <[i:=a]> l -> y = a \/ y ∈ l.
Proof.
  revert i. induction l as [|x l IH]; intros i Hy; simpl in Hy.
  - right. exact Hy.
  - destruct i as [|i]; simpl in Hy.
    + apply elem_of_cons in Hy as [->|Hy]; [left; reflexivity|].
      right. apply elem_of_cons. right. exact Hy.
    + apply elem_of_cons in Hy as [->|Hy].
      * right. apply elem_of_cons. left. reflexivity.
      * destruct (IH _ Hy) as [->|H]; [left; reflexivity|].
        right. apply elem_of_cons. right. exact H.
Qed.

Lemma elem_of_swap {A} (x : list A) (i j : nat) (y : A) :
  y ∈ swap x i j -> y ∈ x.
Proof.
  unfold swap.
  destruct (x !! i) as [a|] eqn:Hi; [|tauto].
  destruct (x !! j) as [b|] eqn:Hj; [|tauto].
  intros Hy.
  apply elem_of_insert_inv in Hy as [->|Hy].
  - eapply list_elem_of_lookup_2. exact Hi.
  - apply elem_of_insert_inv in Hy as [->|Hy]; [|exact Hy].
    eapply list_elem_of_lookup_2. exact Hj.
Qed.

Lemma shuffle_from_ret {A} (i : nat) (x : list A) (g : rng) :
  exists x' g', shuffle_from i x g = Ret (x', g') /\
                length x' = length x /\ forall y, y ∈ x' -> y ∈ x.
Proof.
  revert x g. induction i as [|i IH]; intros x g.
  - exists x, g. simpl. unfold ret. auto.
  - cbn [shuffle_from]. unfold bind, randbelow.
    destruct (IH (swap x (S i)
                       (Z.to_nat (Z.of_N (g 0%nat) mod Z.of_nat (S (S i)))))
                 (rng_tail g))
      as (x' & g' & Heq & Hlen & Hin).
    exists x', g'. split; [exact Heq|]. split.
    + rewrite Hlen. unfold swap.
      repeat (case_match; try reflexivity).
      rewrite !length_insert. reflexivity.
    + intros y Hy. eapply elem_of_swap. apply Hin. exact Hy.
Qed.

Lemma shuffle_ret {A} (x : list A) (g : rng) :
  exists x' g', shuffle x g = Ret (x', g') /\
                length x' = length x /\ forall y, y ∈ x' -> y ∈ x.
Proof. apply shuffle_from_ret. Qed.

Lemma choice2_cases {A} (a b : A) (g : rng) :
  exists c g', choice [a; b] g = Ret (c, g') /\ (c = a \/ c = b).
Proof.
  unfold choice, bind, randbelow. cbn [length].
  assert (H : 0 <= Z.of_N (g 0%nat) mod 2 < 2)
    by (apply Z.mod_pos_bound; lia).
  change (Z.of_nat 2) with 2.
  destruct (Z.eq_dec (Z.of_N (g 0%nat) mod 2) 0) as [E|E].
  - rewrite E. simpl. unfold ret. eauto.
  - assert (E1 : Z.of_N (g 0%nat) mod 2 = 1) by lia.
    rewrite E1. simpl. unfold ret. eauto.
Qed.

End RandomFacts.

(** ** Strings *)

Lemma str_split_length (sep : ascii) (s : string) :
  length (str_split sep s) = S (str_count sep s).
Proof.
  induction s as [|c s IH]; [reflexivity|].
  cbn [str_split str_count].
  destruct (Ascii.eqb c sep).
  - cbn [length]. rewrite IH. reflexivity.
  - destruct (str_split sep s) as [|h t]; [discriminate IH|].
    exact IH.
Qed.

Lemma str_contains_count (sep : ascii) (s : string) :
  str_contains sep s = negb (Nat.eqb (str_count sep s) 0).
Proof.
  induction s as [|c s IH]; [reflexivity|].
  cbn [str_contains str_count].
  destruct (Ascii.eqb c sep); [reflexivity | exact IH].
Qed.

(** ** The retry loop *)

Section RetryLoopFacts.
Context {St A B : Type}.
Variable body : St -> M ((A + B) * St).
Variable fallback : B -> A.

Local Abbreviation loop := (retry_loop body fallback).
Local Abbreviation rejections := (after_rejections body).

(** Fuel beyond the attempts that are left changes nothing. *)
Lemma retry_loop_fuel_irrelevant (fuel1 fuel2 : nat) (attempts : Z)
    (st : St) (g : rng) :
  attempts < MAX_ATTEMPTS ->
  MAX_ATTEMPTS - attempts <= Z.of_nat fuel1 ->
  MAX_ATTEMPTS - attempts <= Z.of_nat fuel2 ->
  loop fuel1 attempts st g = loop fuel2 attempts st g.
Proof.
  revert fuel2 attempts st g.
  induction fuel1 as [|fuel1 IH]; intros fuel2 attempts st g Hlt H1 H2.
  - lia.
  - destruct fuel2 as [|fuel2]; [lia|].
    cbn [retry_loop].
    destruct (body st g) as [[[[a|b] st'] g']| |]; try reflexivity.
    destruct (attempts + 1 =? MAX_ATTEMPTS) eqn:E; [reflexivity|].
    apply Z.eqb_neq in E. apply IH; lia.
Qed.

(** With the fuel of the attempts that are left, the loop is cut only
    if its body is. *)
Lemma retry_loop_in_fuel (fuel : nat) (attempts : Z) (st : St) (g : rng) :
  (forall st g, body st g <> OutOfFuel) ->
  attempts < MAX_ATTEMPTS ->
  MAX_ATTEMPTS - attempts <= Z.of_nat fuel ->
  loop fuel attempts st g <> OutOfFuel.
Proof.
  intros Hbody. revert attempts st g.
  induction fuel as [|fuel IH]; intros attempts st g Hlt Hfuel.
  - lia.
  - cbn [retry_loop]. specialize (Hbody st g).
    destruct (body st g) as [[[[a|b] st'] g']| |];
      try discriminate; try congruence.
    destruct (attempts + 1 =? MAX_ATTEMPTS) eqn:E; [discriminate|].
    apply Z.eqb_neq in E. apply IH; lia.
Qed.

(** How the loop is left: after [k] rejected iterations, either the
    next one passes the test, or it is the hundredth and fails it. *)
Lemma retry_loop_ret_inv (fuel : nat) (attempts : Z) (st : St) (g g' : rng)
    (a : A) (n : Z) :
  loop fuel attempts st g = Ret (a, n, g') ->
  exists (k : nat) (st_k : St) (g_k : rng),
    rejections k st g = Some (st_k, g_k) /\
    n = attempts + Z.of_nat k + 1 /\
    ((exists st', body st_k g_k = Ret (inl a, st', g')) \/
     (n = MAX_ATTEMPTS /\
      exists b st', body st_k g_k = Ret (inr b, st', g') /\
                    a = fallback b)).
Proof.
  revert attempts st g.
  induction fuel as [|fuel IH]; intros attempts st g H; [discriminate|].
  cbn [retry_loop] in H.
  destruct (body st g) as [[[[a0|b] st'] g0]| |] eqn:Hb; try discriminate.
  - injection H as -> <- ->.
    exists O, st, g. cbn. split; [reflexivity|]. split; [lia|].
    left. eauto.
  - destruct (attempts + 1 =? MAX_ATTEMPTS) eqn:E.
    + apply Z.eqb_eq in E. injection H as <- <- <-.
      exists O, st, g. cbn. split; [reflexivity|]. split; [lia|].
      right. split; [exact E|]. eauto.
    + apply IH in H as (k & st_k & g_k & Hrej & Hn & Hend).
      exists (S k), st_k, g_k. cbn [after_rejections]. rewrite Hb.
      split; [exact Hrej|]. split; [lia|]. exact Hend.
Qed.

(** The first accepted iteration ends the loop. *)
Lemma retry_loop_accept (fuel k : nat) (attempts : Z) (st st_k st' : St)
    (g g_k g' : rng) (a : A) :
  rejections k st g = Some (st_k, g_k) ->
  body st_k g_k = Ret (inl a, st', g') ->
  attempts + Z.of_nat k < MAX_ATTEMPTS ->
  (k < fuel)%nat ->
  loop fuel attempts st g = Ret (a, attempts + Z.of_nat k + 1, g').
Proof.
  revert fuel attempts st g.
  induction k as [|k IH]; intros fuel attempts st g Hrej Hb Hlt Hfuel.
  - cbn in Hrej. injection Hrej as -> ->.
    destruct fuel as [|fuel]; [lia|]. cbn [retry_loop]. rewrite Hb.
    do 3 f_equal. lia.
  - cbn [after_rejections] in Hrej.
    destruct (body st g) as [[[[a0|b] st1] g1]| |] eqn:Hb1;
      try discriminate.
    destruct fuel as [|fuel]; [lia|]. cbn [retry_loop]. rewrite Hb1.
    destruct (attempts + 1 =? MAX_ATTEMPTS) eqn:E;
      [apply Z.eqb_eq in E; lia|].
    rewrite (IH fuel (attempts + 1) st1 g1 Hrej Hb) by lia.
    do 3 f_equal. lia.
Qed.

(** A hundred rejections in a row end the loop with the fallback. *)
Lemma retry_loop_exhaust (fuel k : nat) (attempts : Z) (st st' : St)
    (g g' : rng) :
  rejections (S k) st g = Some (st', g') ->
  attempts + Z.of_nat (S k) = MAX_ATTEMPTS ->
  (k < fuel)%nat ->
  exists b, loop fuel attempts st g = Ret (fallback b, MAX_ATTEMPTS, g').
Proof.
  revert fuel attempts st g.
  induction k as [|k IH]; intros fuel attempts st g Hrej Hn Hfuel;
    (destruct fuel as [|fuel]; [lia|]);
    cbn [after_rejections] in Hrej; cbn [retry_loop];
    destruct (body st g) as [[[[a0|b] st1] g1]| |] eqn:Hb1;
    try discriminate.
  - injection Hrej as <- <-.
    replace (attempts + 1 =? MAX_ATTEMPTS) with true
      by (symmetry; apply Z.eqb_eq; lia).
    exists b. do 3 f_equal. lia.
  - destruct (attempts + 1 =? MAX_ATTEMPTS) eqn:E;
      [apply Z.eqb_eq in E; lia|].
    apply (IH fuel (attempts + 1) st1 g1 Hrej); lia.
Qed.

(** [n] rejections, then one more. *)
Lemma after_rejections_snoc (k : nat) (st st_k st' : St) (g g_k g' : rng)
    (b : B) :
  rejections k st g = Some (st_k, g_k) ->
  body st_k g_k = Ret (inr b, st', g') ->
  rejections (S k) st g = Some (st', g').
Proof.
  revert st g. induction k as [|k IH]; intros st g Hrej Hb.
  - cbn in Hrej. injection Hrej as -> ->. cbn. rewrite Hb. reflexivity.
  - cbn [after_rejections] in Hrej.
    change (rejections (S (S k)) st g)
      with (match body st g with
            | Ret (inr _, st1, g1) => rejections (S k) st1 g1
            | _ => None
            end).
    destruct (body st g) as [[[[a0|b0] st1] g1]| |]; try discriminate.
    apply IH; assumption.
Qed.

End RetryLoopFacts.

(** ** The score aggregator *)

(** The arithmetic mean of a list of scores: their sum over their
    number. *)
Definition arithmetic_mean (l : list Q) : Q :=
  fold_right Qplus 0%Q l / inject_Z (Z.of_nat (length l)).

(** Two results are the same when they are the same string, or floats
    of the same value. *)
Definition score_eq (a b : score_value) : Prop :=
  match a, b with
  | Num x, Num y => (x == y)%Q
  | NA, NA => True
  | NameError1, NameError1 => True
  | NameError2, NameError2 => True
  | _, _ => False
  end.

(** The length of a formatted BED line. *)
Definition bed_size (b : bed_string) : option Z :=
  match b with
  | BedLine _ s e => Some (e - s)
  | NA_line => None
  end.

Lemma fold_left_Qplus (l : list Q) (a : Q) :
  (fold_left Qplus l a == a + fold_right Qplus 0 l)%Q.
Proof.
  revert a. induction l as [|x l IH]; intros a; cbn [fold_left fold_right].
  - ring.
  - rewrite IH. ring.
Qed.

Lemma np_mean_arithmetic (l : list Q) : (np_mean l == arithmetic_mean l)%Q.
Proof.
  unfold np_mean, arithmetic_mean. rewrite fold_left_Qplus. 
  apply Qdiv_comp; [ring | reflexivity].
Qed.

Lemma calculate_mean_score_NA (q : BedTool) :
  calculate_mean_score q = NA <-> q = [].
Proof.
  unfold calculate_mean_score. destruct q as [|r q]; cbn.
  - tauto.
  - split; discriminate.
Qed.

Lemma calculate_mean_score_Num (q : BedTool) :
  q <> [] -> calculate_mean_score q = Num (np_mean (List.map score q)).
Proof.
  destruct q as [|r q]; [congruence | reflexivity].
Qed.

(** C8. [calculate_mean_score] answers "NA" exactly on an empty query
    result. On a non-empty one it answers the arithmetic mean of the
    score fields: [s1] for one record, [(s1 + s2) / 2] for two, in
    either order; the coordinates of the records play no part, only
    their scores do. *)
Theorem calculate_mean_score_spec :
  (forall q : BedTool, calculate_mean_score q = NA <-> q = []) /\
  (forall q : BedTool, q <> [] ->
     exists m, calculate_mean_score q = Num m /\
               (m == arithmetic_mean (List.map score q))%Q) /\
  (forall r1, score_eq (calculate_mean_score [r1]) (Num (score r1))) /\
  (forall r1 r2,
     score_eq (calculate_mean_score [r1; r2])
              (Num ((score r1 + score r2) / 2))) /\
  (forall r1 r2,
     score_eq (calculate_mean_score [r1; r2])
              (calculate_mean_score [r2; r1])) /\
  (forall q q' : BedTool,
     List.map score q = List.map score q' ->
     calculate_mean_score q = calculate_mean_score q').
Proof.
  split; [exact calculate_mean_score_NA|].
  split.
  { intros q Hq. exists (np_mean (List.map score q)).
    split; [apply calculate_mean_score_Num; exact Hq|].
    apply np_mean_arithmetic. }
  split.
  { intros r1. cbn. unfold np_mean. cbn. field. }
  split.
  { intros r1 r2. cbn. unfold np_mean. cbn. field. }
  split.
  { intros r1 r2. cbn. unfold np_mean. cbn. field. }
  intros q q' H. unfold calculate_mean_score.
  assert (Hne : nonempty q = nonempty q').
  { destruct q, q'; try discriminate; reflexivity. }
  rewrite Hne, H. reflexivity.
Qed.

(** A store of two scored records of different lengths. *)
Definition two_scores : BedTool :=
  [mkInterval "chr1" 10 11 "a" "+" (3 # 2);
   mkInterval "chr1" 20 50 "b" "+" (1 # 2)].

Lemma calculate_mean_score_spec_witness :
  two_scores <> [] /\
  exists m, calculate_mean_score two_scores = Num m /\
            (m == arithmetic_mean (List.map score two_scores))%Q.
Proof.
  assert (H : two_scores <> []) by discriminate.
  split; [exact H|].
  exact (proj1 (proj2 calculate_mean_score_spec) two_scores H).
Defined.

(** ** Flanking windows *)

(** C9. [flanking_regions] gives the right window
    [[end + window_r, end + size + window_r)] and the left window
    [[start - window_l - size, start - window_l)], both of the size of
    the feature. It is a function of the feature and the two windows
    alone, defined for all of them: no sign is asked of any coordinate. *)
Theorem flanking_regions_spec (feature : Interval) (window_r window_l : Z) :
  let self := Feature_init feature in
  let right :=
    BedLine (chrom feature)
            (end_ feature + window_r)
            (end_ feature + f_size self + window_r) in
  let left :=
    BedLine (chrom feature)
            (start feature - window_l - f_size self)
            (start feature - window_l) in
  flanking_regions self window_r window_l = (right, left) /\
  f_size self = end_ feature - start feature /\
  bed_size right = Some (f_size self) /\
  bed_size left = Some (f_size self).
Proof.
  cbn. repeat split; f_equal; lia.
Qed.

(** ** Flanking score *)

(** C1. [flanking_simulation] never fails and follows the decision
    table on the two windows of [flanking_regions]: both windows hit
    the not-allowed store, "NA"; only the right one does, the mean score
    of the left window; only the left one does, the mean score of the
    right window; neither does, the mean of the two side means when
    both windows have scores, the mean of the side that has scores when
    one has, "NA" when none has. *)
Theorem flanking_simulation_table (self : Feature)
    (not_allowed_regions_bed query_bed : BedTool) :
  let right := fst (flanking_regions self 1 1) in
  let left := snd (flanking_regions self 1 1) in
  let overlap_r := run_bedextract right not_allowed_regions_bed in
  let overlap_l := run_bedextract left not_allowed_regions_bed in
  let scores_r := run_bedextract right query_bed in
  let scores_l := run_bedextract left query_bed in
  let result := flanking_simulation self not_allowed_regions_bed query_bed in
  (overlap_r <> [] -> overlap_l <> [] -> result = Ret NA) /\
  (overlap_r <> [] -> overlap_l = [] ->
     result = Ret (calculate_mean_score scores_l)) /\
  (overlap_r = [] -> overlap_l <> [] ->
     result = Ret (calculate_mean_score scores_r)) /\
  (overlap_r = [] -> overlap_l = [] ->
     (scores_l <> [] -> scores_r <> [] ->
        exists m, result = Ret (Num m) /\
          (m == (arithmetic_mean (List.map score scores_l) +
                 arithmetic_mean (List.map score scores_r)) / 2)%Q) /\
     (scores_l <> [] -> scores_r = [] ->
        result = Ret (calculate_mean_score scores_l)) /\
     (scores_l = [] -> scores_r <> [] ->
        result = Ret (calculate_mean_score scores_r)) /\
     (scores_l = [] -> scores_r = [] -> result = Ret NA)).
Proof.
  cbv zeta. unfold flanking_simulation.
  destruct (flanking_regions self 1 1) as [right left]. cbn [fst snd].
  destruct (run_bedextract right not_allowed_regions_bed) as [|r0 ovr];
    destruct (run_bedextract left not_allowed_regions_bed) as [|l0 ovl];
    cbn [nonempty negb andb];
    (split; [intros; congruence|]);
    (split; [intros; congruence|]);
    (split; [intros; congruence|]);
    try (intros; congruence).
  intros _ _.
  destruct (run_bedextract left query_bed) as [|sl0 sl];
    destruct (run_bedextract right query_bed) as [|sr0 sr];
    cbn -[np_mean arithmetic_mean List.map];
    (split; [intros Hl Hr|split; [|split]; intros; congruence]);
    try congruence.
  eexists. split; [reflexivity|].
  rewrite <- !np_mean_arithmetic.
  unfold np_mean at 1. cbn [fold_left length].
  change (inject_Z (Z.of_nat 2)) with (2 # 1)%Q. field.
Qed.

(** The end-to-end scenario of the flanking mode: the feature
    chr1:1000-1010, a not-allowed record over chr1:1011-3000, and one
    scored record chr1:980-990 of score 2. *)
Definition flank_feature : Feature :=
  Feature_init (mkInterval "chr1" 1000 1010 "mir_G_T" "+" 0).

Definition flank_not_allowed : BedTool :=
  [mkInterval "chr1" 1011 3000 "gene" "+" 0].

Definition flank_scores : BedTool :=
  [mkInterval "chr1" 980 990 "id-1" "+" 2].

Lemma flanking_simulation_table_witness :
  run_bedextract (fst (flanking_regions flank_feature 1 1))
                 flank_not_allowed <> [] /\
  run_bedextract (snd (flanking_regions flank_feature 1 1))
                 flank_not_allowed = [] /\
  flanking_simulation flank_feature flank_not_allowed flank_scores
  = Ret (Num 2).
Proof.
  assert (Hr : run_bedextract (fst (flanking_regions flank_feature 1 1))
                              flank_not_allowed <> []) by discriminate.
  assert (Hl : run_bedextract (snd (flanking_regions flank_feature 1 1))
                              flank_not_allowed = []) by reflexivity.
  split; [exact Hr|]. split; [exact Hl|].
  exact (proj1 (proj2 (flanking_simulation_table
                         flank_feature flank_not_allowed flank_scores))
               Hr Hl).
Defined.

(** ** Name checks of the intragenic mode *)

Lemma outer_loop_value {St} (body : St -> M ((score_value + BedTool) * St))
    (fuel : nat) (attempts : Z) (st : St) (g g' : rng) (v : score_value)
    (n : Z) :
  (forall st g b st' g', body st g = Ret (inl b, st', g') ->
                         b = NA \/ exists q, b = Num q) ->
  retry_loop body calculate_mean_score fuel attempts st g = Ret (v, n, g') ->
  v = NA \/ exists q, v = Num q.
Proof.
  intros Hbody H.
  apply retry_loop_ret_inv in H as (k & st_k & g_k & _ & _ & Hend).
  destruct Hend as [[st' Hb]|[_ (b & st' & _ & ->)]].
  - eapply Hbody. exact Hb.
  - unfold calculate_mean_score. destruct (negb (nonempty b)); eauto.
Qed.

Lemma random_intragenic_body_value (self : Feature)
    (allowed_regions : list (Z * Z)) (query_bed : BedTool) (st st' : unit)
    (g g' : rng) (b : score_value) :
  random_intragenic_body self allowed_regions query_bed st g
  = Ret (inl b, st', g') ->
  b = NA \/ exists q, b = Num q.
Proof.
  unfold random_intragenic_body, bind.
  destruct (random_regions self allowed_regions g) as [[r g1]| |];
    try discriminate.
  destruct (nonempty (run_bedextract r query_bed)); unfold ret;
    intros H; [|discriminate].
  injection H as <- _ _.
  unfold calculate_mean_score. destruct (negb _); eauto.
Qed.

(** C7. A feature name without underscore gives "NameError1", whatever
    the index and the score store hold, and no random number is drawn;
    a name that decodes to a key [(gene, transcript, chrom)] absent from
    the index gives "NameError2", again without drawing. *)
Theorem random_intragenic_name_errors :
  (forall self allowed_regions_dict query_bed g,
     str_contains "_" (f_name self) = false ->
     random_intragenic_simulation self allowed_regions_dict query_bed g
     = Ret (NameError1, g)) /\
  (forall self allowed_regions_dict query_bed g first gene transcript rest,
     str_split "_" (f_name self) = first :: gene :: transcript :: rest ->
     allowed_regions_dict !! (gene, transcript, f_chrom self) = None ->
     random_intragenic_simulation self allowed_regions_dict query_bed g
     = Ret (NameError2, g)).
Proof.
  split.
  - intros self d q g H. unfold random_intragenic_simulation.
    rewrite H. reflexivity.
  - intros self d q g first gene transcript rest Hsplit Hkey.
    unfold random_intragenic_simulation.
    assert (Hc : str_contains "_" (f_name self) = true).
    { rewrite str_contains_count.
      pose proof (str_split_length "_" (f_name self)) as Hlen.
      rewrite Hsplit in Hlen. cbn [length] in Hlen.
      destruct (str_count "_" (f_name self)); [lia | reflexivity]. }
    rewrite Hc, Hsplit. cbn. rewrite Hkey. reflexivity.
Qed.

Definition no_underscore_feature : Feature :=
  Feature_init (mkInterval "chr2" 500 520 "mir123" "+" 0).

Definition unknown_key_feature : Feature :=
  Feature_init (mkInterval "chr2" 500 520 "mir_ENSG1_ENST1" "+" 0).

Definition other_index : gmap (string * string * string) (list (Z * Z)) :=
  {[ ("ENSG1", "ENST1", "chr3") := [(0, 1000)] ]}.

(** The generator whose raw draws are all zero. *)
Definition draws_zero : rng := fun _ => 0%N.

Lemma random_intragenic_name_errors_witness :
  random_intragenic_simulation no_underscore_feature other_index
                               flank_scores draws_zero
  = Ret (NameError1, draws_zero) /\
  random_intragenic_simulation unknown_key_feature other_index
                               flank_scores draws_zero
  = Ret (NameError2, draws_zero).
Proof.
  split.
  - apply (proj1 random_intragenic_name_errors). reflexivity.
  - apply (proj2 random_intragenic_name_errors
             unknown_key_feature other_index flank_scores draws_zero
             "mir" "ENSG1" "ENST1" []).
    + reflexivity.
    + vm_compute. reflexivity.
Defined.

(** C10. A feature name with exactly one underscore splits in two
    fields, and reading the third one for the key fails with
    [IndexError], whatever the index and the stores hold; "NameError1"
    is the answer for names without underscore only. *)
Theorem one_underscore_IndexError :
  (forall self allowed_regions_dict query_bed g,
     str_count "_" (f_name self) = 1%nat ->
     random_intragenic_simulation self allowed_regions_dict query_bed g
     = Raise IndexError) /\
  (forall self allowed_regions_dict query_bed g g',
     random_intragenic_simulation self allowed_regions_dict query_bed g
     = Ret (NameError1, g') ->
     str_count "_" (f_name self) = 0%nat).
Proof.
  split.
  - intros self d q g H. unfold random_intragenic_simulation.
    rewrite str_contains_count, H. cbn [Nat.eqb negb].
    pose proof (str_split_length "_" (f_name self)) as Hlen.
    rewrite H in Hlen.
    destruct (str_split "_" (f_name self)) as [|a [|b [|c l]]];
      try discriminate Hlen.
    reflexivity.
  - intros self d q g g'. unfold random_intragenic_simulation.
    rewrite str_contains_count.
    destruct (str_count "_" (f_name self)) as [|n]; [reflexivity|].
    cbn [Nat.eqb negb]. unfold bind at 1.
    destruct (index (str_split "_" (f_name self)) 1 g) as [[gene g1]| |];
      try discriminate.
    unfold bind at 1.
    destruct (index (str_split "_" (f_name self)) 2 g1)
      as [[transcript g2]| |]; try discriminate.
    destruct (d !! (gene, transcript, f_chrom self)) as [allowed|];
      [|discriminate].
    unfold random_intragenic_loop.
    destruct (retry_loop _ _ _ _ _ _) as [[[v n'] g3]| |] eqn:Hloop;
      try discriminate.
    cbn [run_loop]. intros H. injection H as -> _.
    apply outer_loop_value in Hloop.
    + destruct Hloop as [?|[? ?]]; discriminate.
    + intros st0 g0 b st' g0'. apply random_intragenic_body_value.
Qed.

Definition one_underscore_feature : Feature :=
  Feature_init (mkInterval "chr2" 500 520 "mir_ENSG1" "+" 0).

Lemma one_underscore_IndexError_witness :
  str_count "_" (f_name one_underscore_feature) = 1%nat /\
  random_intragenic_simulation one_underscore_feature other_index
                               flank_scores draws_zero
  = Raise IndexError.
Proof.
  split; [reflexivity|].
  apply (proj1 one_underscore_IndexError). reflexivity.
Defined.

(** ** The two interval samplers *)

Lemma bind_ret_inv {A B} (m : M A) (k : A -> M B) (g g' : rng) (b : B) :
  bind m k g = Ret (b, g') ->
  exists a g1, m g = Ret (a, g1) /\ k a g1 = Ret (b, g').
Proof.
  unfold bind. destruct (m g) as [[a g1]| |]; try discriminate. eauto.
Qed.

Lemma bind_in_fuel {A B} (m : M A) (k : A -> M B) (g : rng) :
  m g <> OutOfFuel -> (forall a g1, k a g1 <> OutOfFuel) ->
  bind m k g <> OutOfFuel.
Proof.
  unfold bind. intros Hm Hk. destruct (m g) as [[a g1]| |];
    [apply Hk | discriminate | congruence].
Qed.

Lemma randrange_in_fuel (a b : Z) (g : rng) : randrange a b g <> OutOfFuel.
Proof.
  destruct (randrange_cases a b g) as [(r & g' & H)|H]; rewrite H;
    discriminate.
Qed.

Lemma index_in_fuel {A} (l : list A) (i : nat) (g : rng) :
  index l i g <> OutOfFuel.
Proof. unfold index. destruct (l !! i); discriminate. Qed.

Lemma if_in_fuel {A} (c : bool) (m1 m2 : M A) (g : rng) :
  m1 g <> OutOfFuel -> m2 g <> OutOfFuel -> (if c then m1 else m2) g <> OutOfFuel.
Proof. destruct c; auto. Qed.

Lemma random_regions_body_in_fuel (self : Feature)
    (allowed_regions : list (Z * Z)) (st : unit) (g : rng) :
  random_regions_body self allowed_regions st g <> OutOfFuel.
Proof.
  unfold random_regions_body.
  apply bind_in_fuel.
  { destruct (shuffle_ret allowed_regions g) as (x' & g' & H & _).
    rewrite H. discriminate. }
  intros x' g1. apply bind_in_fuel; [apply index_in_fuel|].
  intros region g2. apply bind_in_fuel; [apply randrange_in_fuel|].
  intros r g3. apply if_in_fuel; discriminate.
Qed.

Lemma random_flanking_body_in_fuel (self : Feature) (na : BedTool)
    (right left : Z * Z) (locals : option (Z * Z)) (g : rng) :
  random_flanking_body self na right left locals g <> OutOfFuel.
Proof.
  unfold random_flanking_body.
  apply bind_in_fuel.
  { destruct (choice2_cases right left g) as (c & g' & H & _).
    rewrite H. discriminate. }
  intros flanking g1. apply bind_in_fuel.
  - repeat apply if_in_fuel; try discriminate;
      (apply bind_in_fuel;
       [first [apply index_in_fuel | apply randrange_in_fuel]|]);
      intros;
      try (apply bind_in_fuel; [apply randrange_in_fuel|]; intros);
      discriminate.
  - intros [[rs re]|] g2; [|discriminate].
    apply if_in_fuel; discriminate.
Qed.

(** What an accepted iteration of [random_regions] has checked. *)
Lemma random_regions_body_accept (self : Feature)
    (allowed_regions : list (Z * Z)) (st st' : unit) (g g' : rng)
    (r : bed_string) :
  random_regions_body self allowed_regions st g = Ret (inl r, st', g') ->
  exists (region : Z * Z) (random_start : Z),
    region ∈ allowed_regions /\
    fst region <= random_start < snd region /\
    random_start + f_size self < snd region /\
    r = BedLine (f_chrom self) random_start (random_start + f_size self) /\
    check_overlap (BedLine (f_chrom self) (f_start self) (f_end self)) r
    = false.
Proof.
  unfold random_regions_body. intros H.
  apply bind_ret_inv in H as (x' & g1 & Hsh & H).
  destruct (shuffle_ret allowed_regions g) as (x2 & g2 & Hsh2 & _ & Hin).
  rewrite Hsh2 in Hsh. injection Hsh as -> ->.
  apply bind_ret_inv in H as (region & g3 & Hidx & H).
  unfold index in Hidx. destruct (x' !! 0%nat) as [reg|] eqn:Hlk;
    [|discriminate].
  injection Hidx as -> ->.
  apply bind_ret_inv in H as (random_start & g4 & Hrr & H).
  apply randrange_range in Hrr.
  destruct (random_start + f_size self <? snd region) eqn:Hend;
    [|discriminate].
  destruct (check_overlap _ _) eqn:Hov; [discriminate|].
  cbn in H. injection H as <- _ _.
  exists region, random_start.
  split; [apply Hin; eapply list_elem_of_lookup_2; exact Hlk|].
  split; [exact Hrr|]. split; [apply Z.ltb_lt; exact Hend|].
  split; [reflexivity | exact Hov].
Qed.

(** What an accepted iteration of [random_flanking_regions] has
    checked: the end against the upper bound of the chosen window, and
    the overlap with the feature. *)
Lemma random_flanking_body_accept (self : Feature) (na : BedTool)
    (right left : Z * Z) (locals locals' : option (Z * Z)) (g g' : rng)
    (r : bed_string) :
  random_flanking_body self na right left locals g = Ret (inl r, locals', g') ->
  exists (flanking : Z * Z) (random_start random_end : Z),
    (flanking = right \/ flanking = left) /\
    r = BedLine (f_chrom self) random_start random_end /\
    random_end < snd flanking /\
    check_overlap (BedLine (f_chrom self) (f_start self) (f_end self)) r
    = false.
Proof.
  unfold random_flanking_body. intros H.
  apply bind_ret_inv in H as (flanking & g1 & Hch & H).
  destruct (choice2_cases right left g) as (c & g2 & Hch2 & Hc).
  rewrite Hch2 in Hch. injection Hch as -> ->.
  apply bind_ret_inv in H as (loc & g3 & _ & H).
  destruct loc as [[random_start random_end]|]; [|discriminate].
  destruct (random_end <? snd flanking) eqn:Hend; [|discriminate].
  destruct (check_overlap _ _) eqn:Hov; [discriminate|].
  cbn in H. injection H as <- _ _.
  exists flanking, random_start, random_end.
  split; [exact Hc|]. split; [reflexivity|].
  split; [apply Z.ltb_lt; exact Hend | exact Hov].
Qed.

Lemma check_overlap_false_disjoint (c : string) (s1 e1 s2 e2 : Z) :
  check_overlap (BedLine c s1 e1) (BedLine c s2 e2) = false ->
  forall x, s1 <= x < e1 -> s2 <= x < e2 -> False.
Proof.
  cbn. unfold overlaps. rewrite String.eqb_refl. cbn [andb].
  intros H x H1 H2. apply Z.ltb_ge in H. lia.
Qed.

(** C4. An interval returned by [random_regions] is on the chromosome
    of the feature, has its size, shares no base with the feature, and
    was drawn from one of the allowed pairs: it starts inside that pair
    and ends strictly before the end of the pair. *)
Theorem random_regions_valid (self : Feature) (allowed_regions : list (Z * Z))
    (g g' : rng) (c : string) (s e : Z) :
  random_regions self allowed_regions g = Ret (BedLine c s e, g') ->
  check_overlap (BedLine (f_chrom self) (f_start self) (f_end self))
                (BedLine c s e) = false /\
  (forall x, f_start self <= x < f_end self -> s <= x < e -> False) /\
  c = f_chrom self /\
  e = s + f_size self /\
  exists region : Z * Z,
    region ∈ allowed_regions /\
    fst region <= s < snd region /\
    e < snd region.
Proof.
  unfold random_regions, random_regions_loop.
  destruct (retry_loop _ _ _ _ _ _) as [[[r n] g1]| |] eqn:Hloop;
    try discriminate.
  cbn [run_loop]. intros H. injection H as -> ->.
  apply retry_loop_ret_inv in Hloop as (k & st_k & g_k & _ & _ & Hend).
  destruct Hend as [[st' Hb]|[_ (b & st' & _ & Hna)]]; [|discriminate].
  apply random_regions_body_accept in Hb
    as (region & random_start & Hin & Hstart & Hlt & Hr & Hov).
  injection Hr as -> -> ->.
  split; [exact Hov|].
  split; [apply (check_overlap_false_disjoint _ _ _ _ _ Hov)|].
  split; [reflexivity|]. split; [reflexivity|].
  exists region. auto.
Qed.

(** The feature chr1:100-110 and one allowed pair that holds a window of
    its size. *)
Definition short_feature : Feature :=
  Feature_init (mkInterval "chr1" 100 110 "mir_G_T" "+" 0).

Lemma random_regions_valid_witness :
  random_regions short_feature [(5, 50)] draws_zero
  = Ret (BedLine "chr1" 5 15, rng_tail draws_zero) /\
  exists region : Z * Z,
    region ∈ [(5, 50)] /\ fst region <= 5 < snd region /\ 15 < snd region.
Proof.
  assert (H : random_regions short_feature [(5, 50)] draws_zero
              = Ret (BedLine "chr1" 5 15, rng_tail draws_zero))
    by reflexivity.
  split; [exact H|].
  exact (proj2 (proj2 (proj2 (proj2
           (random_regions_valid short_feature [(5, 50)] draws_zero
              (rng_tail draws_zero) "chr1" 5 15 H))))).
Defined.

(** An allowed list in which no pair holds a window of the size of the
    feature rejects every draw. *)
Lemma random_regions_body_reject (self : Feature)
    (allowed_regions : list (Z * Z)) (g : rng) :
  allowed_regions <> [] ->
  (forall region, region ∈ allowed_regions ->
     fst region < snd region <= fst region + f_size self) ->
  exists g', random_regions_body self allowed_regions tt g
             = Ret (inr tt, tt, g').
Proof.
  intros Hne Hall. unfold random_regions_body, bind.
  destruct (shuffle_ret allowed_regions g) as (x' & g1 & -> & Hlen & Hin).
  destruct x' as [|region rest].
  { destruct allowed_regions; [congruence | discriminate Hlen]. }
  cbn [index lookup list_lookup ret].
  assert (Hreg : region ∈ allowed_regions)
    by (apply Hin, elem_of_cons; left; reflexivity).
  apply Hall in Hreg.
  destruct (randrange_cases (fst region) (snd region) g1)
    as [(r & g2 & Hr)|Hr].
  - rewrite Hr. apply randrange_range in Hr.
    replace (r + f_size self <? snd region) with false
      by (symmetry; apply Z.ltb_ge; lia).
    cbn. eauto.
  - unfold randrange in Hr.
    destruct (0 <? snd region - fst region) eqn:E.
    + unfold bind, randbelow, ret in Hr. discriminate.
    + apply Z.ltb_ge in E. lia.
Qed.

Lemma random_regions_rejections (self : Feature)
    (allowed_regions : list (Z * Z)) (n : nat) (g : rng) :
  allowed_regions <> [] ->
  (forall region, region ∈ allowed_regions ->
     fst region < snd region <= fst region + f_size self) ->
  exists g', after_rejections (random_regions_body self allowed_regions)
                              n tt g = Some (tt, g').
Proof.
  intros Hne Hall. revert g. induction n as [|n IH]; intros g.
  - exists g. reflexivity.
  - cbn [after_rejections].
    destruct (random_regions_body_reject self allowed_regions g Hne Hall)
      as (g1 & ->).
    apply IH.
Qed.

(** ** Termination of the samplers *)

Section SamplerLoop.
Context {St : Type}.
Variable body : St -> M ((bed_string + unit) * St).
Hypothesis body_in_fuel : forall st g, body st g <> OutOfFuel.
Hypothesis body_accepts_lines :
  forall st g r st' g', body st g = Ret (inl r, st', g') -> r <> NA_line.

Local Abbreviation sampler := (retry_loop body (fun _ : unit => NA_line)).

Lemma retry_loop_attempts_bound (fuel : nat) (attempts : Z) (st : St)
    (g g' : rng) (r : bed_string) (n : Z) :
  attempts < MAX_ATTEMPTS ->
  sampler fuel attempts st g = Ret (r, n, g') ->
  attempts < n <= MAX_ATTEMPTS.
Proof.
  revert attempts st g.
  induction fuel as [|fuel IH]; intros attempts st g Hlt H; [discriminate|].
  cbn [retry_loop] in H.
  destruct (body st g) as [[[[a|b] st1] g1]| |]; try discriminate.
  - injection H as _ <- _. lia.
  - destruct (attempts + 1 =? MAX_ATTEMPTS) eqn:E.
    + apply Z.eqb_eq in E. injection H as _ <- _. lia.
    + apply Z.eqb_neq in E. apply IH in H; lia.
Qed.

Lemma sampler_NA_inv (fuel : nat) (st : St) (g g' : rng) (n : Z) :
  sampler fuel 0 st g = Ret (NA_line, n, g') ->
  n = MAX_ATTEMPTS /\
  exists st', after_rejections body 100 st g = Some (st', g').
Proof.
  intros H.
  apply retry_loop_ret_inv in H as (k & st_k & g_k & Hrej & Hn & Hend).
  destruct Hend as [[st' Hb]|[H100 (b & st' & Hb & _)]].
  - exfalso. eapply body_accepts_lines; [exact Hb | reflexivity].
  - split; [exact H100|]. exists st'.
    assert (Hk : k = 99%nat) by (unfold MAX_ATTEMPTS in H100; lia).
    subst k. eapply after_rejections_snoc; eassumption.
Qed.

Lemma sampler_exhaust (fuel : nat) (st st' : St) (g g' : rng) :
  (100 <= fuel)%nat ->
  after_rejections body 100 st g = Some (st', g') ->
  sampler fuel 0 st g = Ret (NA_line, MAX_ATTEMPTS, g').
Proof.
  intros Hfuel Hrej.
  destruct (retry_loop_exhaust body (fun _ => NA_line) fuel 99 0 st st' g g')
    as [b Hb]; [exact Hrej | reflexivity | lia | exact Hb].
Qed.

End SamplerLoop.

(** The contract of a sampler loop that starts from the locals [st0]:
    any fuel from 100 on gives one and the same outcome, which is not
    [OutOfFuel]; the loop leaves with [attempts] between 1 and 100; and it
    answers the sentinel exactly when the test failed in 100 iterations
    in a row, with [attempts = 100]. *)
Definition leaves_within_100 {St : Type}
    (body : St -> M ((bed_string + unit) * St)) (st0 : St)
    (loop : nat -> rng -> outcome (bed_string * Z * rng)) : Prop :=
  forall (fuel : nat) (g : rng),
    (100 <= fuel)%nat ->
    loop fuel g = loop 100%nat g /\
    loop fuel g <> OutOfFuel /\
    (forall r n g', loop fuel g = Ret (r, n, g') -> 1 <= n <= 100) /\
    (forall g',
       (exists st', after_rejections body 100 st0 g = Some (st', g')) <->
       loop fuel g = Ret (NA_line, 100, g')) /\
    (forall n g', loop fuel g = Ret (NA_line, n, g') -> n = 100).

Lemma sampler_leaves_within_100 {St : Type}
    (body : St -> M ((bed_string + unit) * St)) (st0 : St) :
  (forall st g, body st g <> OutOfFuel) ->
  (forall st g r st' g', body st g = Ret (inl r, st', g') -> r <> NA_line) ->
  leaves_within_100 body st0
    (fun fuel => retry_loop body (fun _ => NA_line) fuel 0 st0).
Proof.
  intros Hto Hline fuel g Hfuel. cbv beta.
  split.
  { apply retry_loop_fuel_irrelevant; unfold MAX_ATTEMPTS; lia. }
  split.
  { apply retry_loop_in_fuel; [exact Hto | |]; unfold MAX_ATTEMPTS; lia. }
  split.
  { intros r n g' H.
    apply retry_loop_attempts_bound in H; unfold MAX_ATTEMPTS in *; lia. }
  split.
  { intros g'. split.
    - intros [st' Hrej]. eapply sampler_exhaust; eassumption.
    - intros H. eapply sampler_NA_inv in H; [|exact Hline]. tauto. }
  intros n g' H. eapply sampler_NA_inv in H; [|exact Hline]. tauto.
Qed.

Lemma random_regions_loop_leaves (self : Feature)
    (allowed_regions : list (Z * Z)) :
  leaves_within_100 (random_regions_body self allowed_regions) tt
                    (random_regions_loop self allowed_regions).
Proof.
  apply sampler_leaves_within_100.
  - apply random_regions_body_in_fuel.
  - intros st g r st' g' H.
    apply random_regions_body_accept in H as (? & ? & _ & _ & _ & -> & _).
    discriminate.
Qed.

Lemma random_flanking_loop_leaves (self : Feature)
    (not_allowed_regions_bed : BedTool) (window_r window_l : Z) :
  leaves_within_100
    (random_flanking_body self not_allowed_regions_bed
                          (flank_right self window_r)
                          (flank_left self window_l))
    None
    (random_flanking_loop self not_allowed_regions_bed window_r window_l).
Proof.
  apply sampler_leaves_within_100.
  - apply random_flanking_body_in_fuel.
  - intros st g r st' g' H.
    apply random_flanking_body_accept in H as (? & ? & ? & _ & -> & _).
    discriminate.
Qed.

Lemma random_regions_in_fuel (self : Feature)
    (allowed_regions : list (Z * Z)) (g : rng) :
  random_regions self allowed_regions g <> OutOfFuel.
Proof.
  unfold random_regions.
  destruct (random_regions_loop_leaves self allowed_regions 100%nat g)
    as (_ & Hto & _); [lia|].
  destruct (random_regions_loop self allowed_regions 100 g)
    as [[[r n] g1]| |]; [discriminate | discriminate | congruence].
Qed.

Lemma random_flanking_regions_in_fuel (self : Feature)
    (not_allowed_regions_bed : BedTool) (window_r window_l : Z) (g : rng) :
  random_flanking_regions self not_allowed_regions_bed window_r window_l g
  <> OutOfFuel.
Proof.
  unfold random_flanking_regions.
  destruct (random_flanking_loop_leaves self not_allowed_regions_bed
              window_r window_l 100%nat g) as (_ & Hto & _); [lia|].
  destruct (random_flanking_loop self not_allowed_regions_bed
              window_r window_l 100 g)
    as [[[r n] g1]| |]; [discriminate | discriminate | congruence].
Qed.

Lemma random_regions_always_rejecting (self : Feature)
    (allowed_regions : list (Z * Z)) (g : rng) :
  allowed_regions <> [] ->
  (forall region, region ∈ allowed_regions ->
     fst region < snd region <= fst region + f_size self) ->
  exists g', random_regions self allowed_regions g = Ret (NA_line, g').
Proof.
  intros Hne Hall.
  destruct (random_regions_rejections self allowed_regions 100 g Hne Hall)
    as (g' & Hrej).
  exists g'. unfold random_regions.
  destruct (random_regions_loop_leaves self allowed_regions 100%nat g)
    as (_ & _ & _ & Hna & _); [lia|].
  rewrite (proj1 (Hna g')) by eauto. reflexivity.
Qed.

(** C5. Both samplers leave their loop within 100 iterations, whatever
    the feature, the search space and the draws: fuel beyond 100 is
    never used, the outcome is never [OutOfFuel], the counter [attempts]
    ends between 1 and 100, and the sentinel "NA\tNA\tNA" is the answer
    exactly when 100 iterations in a row failed the acceptance test. An
    allowed list whose pairs are all too short for the feature is such
    an always-rejecting search space. *)
Theorem samplers_leave_within_100 :
  (forall self allowed_regions,
     leaves_within_100 (random_regions_body self allowed_regions) tt
                       (random_regions_loop self allowed_regions)) /\
  (forall self not_allowed_regions_bed window_r window_l,
     leaves_within_100
       (random_flanking_body self not_allowed_regions_bed
                             (flank_right self window_r)
                             (flank_left self window_l))
       None
       (random_flanking_loop self not_allowed_regions_bed
                             window_r window_l)) /\
  (forall self allowed_regions g,
     random_regions self allowed_regions g <> OutOfFuel) /\
  (forall self not_allowed_regions_bed window_r window_l g,
     random_flanking_regions self not_allowed_regions_bed window_r window_l g
     <> OutOfFuel) /\
  (forall self allowed_regions g,
     allowed_regions <> [] ->
     (forall region, region ∈ allowed_regions ->
        fst region < snd region <= fst region + f_size self) ->
     exists g', random_regions self allowed_regions g = Ret (NA_line, g')).
Proof.
  split; [exact random_regions_loop_leaves|].
  split; [exact random_flanking_loop_leaves|].
  split; [exact random_regions_in_fuel|].
  split; [exact random_flanking_regions_in_fuel|].
  exact random_regions_always_rejecting.
Qed.

Lemma samplers_leave_within_100_witness :
  (100 <= 250)%nat /\
  random_regions_loop short_feature [(5, 10)] 250 draws_zero
  = random_regions_loop short_feature [(5, 10)] 100 draws_zero /\
  exists g', random_regions short_feature [(5, 10)] draws_zero
             = Ret (NA_line, g').
Proof.
  assert (Hfuel : (100 <= 250)%nat) by lia.
  split; [exact Hfuel|]. split.
  - exact (proj1 (proj1 samplers_leave_within_100 short_feature [(5, 10)]
                        250%nat draws_zero Hfuel)).
  - apply (proj2 (proj2 (proj2 (proj2 samplers_leave_within_100)))).
    + discriminate.
    + intros region Hin. apply list_elem_of_singleton in Hin. subst region.
      cbn. lia.
Defined.

(** ** The outer loops of the two random simulations *)

(** The retry policy in the words of the specification: up to [n] times,
    draw a fresh candidate and query the score store with it; the first
    candidate with a non-empty query result gives its mean score; when
    none of the [n] has one, the answer is "NA". *)
Fixpoint first_scored_sample (sampler : M bed_string) (query_bed : BedTool)
    (n : nat) : M score_value :=
  match n with
  | O => ret NA
  | S n' =>
      let* candidate := sampler in
      match run_bedextract candidate query_bed with
      | [] => first_scored_sample sampler query_bed n'
      | matches => ret (calculate_mean_score matches)
      end
  end.

(** The shape shared by the bodies of the two outer loops. *)
Definition sample_and_query (sampler : M bed_string) (query_bed : BedTool)
    (_ : unit) : M ((score_value + BedTool) * unit) :=
  let* random_region := sampler in
  let random_features := run_bedextract random_region query_bed in
  if nonempty random_features
  then ret (inl (calculate_mean_score random_features), tt)
  else ret (inr random_features, tt).

Lemma sample_and_query_loop (sampler : M bed_string) (query_bed : BedTool)
    (n fuel : nat) (attempts : Z) (g : rng) :
  attempts + Z.of_nat n = MAX_ATTEMPTS ->
  (1 <= n <= fuel)%nat ->
  run_loop (retry_loop (sample_and_query sampler query_bed)
                       calculate_mean_score fuel attempts tt g)
  = first_scored_sample sampler query_bed n g.
Proof.
  revert fuel attempts g.
  induction n as [|n IH]; intros fuel attempts g Hn Hfuel; [lia|].
  destruct fuel as [|fuel]; [lia|].
  cbn [retry_loop first_scored_sample].
  unfold sample_and_query at 1. unfold bind.
  destruct (sampler g) as [[candidate g1]| |]; try reflexivity.
  destruct (run_bedextract candidate query_bed) as [|r0 matches] eqn:Hq;
    cbn [nonempty ret run_loop]; [|reflexivity].
  destruct (attempts + 1 =? MAX_ATTEMPTS) eqn:E.
  - apply Z.eqb_eq in E. assert (n = O) by lia. subst n. reflexivity.
  - apply Z.eqb_neq in E. apply IH; lia.
Qed.

Lemma first_scored_sample_in_fuel (sampler : M bed_string)
    (query_bed : BedTool) (n : nat) (g : rng) :
  (forall g, sampler g <> OutOfFuel) ->
  first_scored_sample sampler query_bed n g <> OutOfFuel.
Proof.
  intros Hs. revert g. induction n as [|n IH]; intros g; [discriminate|].
  cbn [first_scored_sample]. apply bind_in_fuel; [apply Hs|].
  intros candidate g1.
  destruct (run_bedextract candidate query_bed); [apply IH | discriminate].
Qed.

(** The candidate of iteration [k] (from 0) of an outer loop: the
    result of the call number [k + 1] of the sampler, each call
    starting from the generator that the call before it left. *)
Fixpoint nth_sample (sampler : M bed_string) (k : nat) : M bed_string :=
  match k with
  | O => sampler
  | S k' => let* _ := sampler in nth_sample sampler k'
  end.

(** The first [k] candidates were all drawn and none of them has a
    record of the score store. *)
Definition all_unscored (sampler : M bed_string) (query_bed : BedTool)
    (k : nat) (g : rng) : Prop :=
  forall i, (i < k)%nat ->
    exists r_i g_i, nth_sample sampler i g = Ret (r_i, g_i) /\
                    run_bedextract r_i query_bed = [].

Lemma nth_sample_succ (sampler : M bed_string) (k : nat) (g g0 : rng)
    (r0 : bed_string) :
  sampler g = Ret (r0, g0) ->
  nth_sample sampler (S k) g = nth_sample sampler k g0.
Proof.
  intros H. cbn [nth_sample]. unfold bind. rewrite H. reflexivity.
Qed.

Lemma all_unscored_succ (sampler : M bed_string) (query_bed : BedTool)
    (k : nat) (g : rng) :
  all_unscored sampler query_bed (S k) g ->
  exists r0 g0, sampler g = Ret (r0, g0) /\
                run_bedextract r0 query_bed = [] /\
                all_unscored sampler query_bed k g0.
Proof.
  intros H. destruct (H O) as (r0 & g0 & H0 & Hq0); [lia|].
  cbn [nth_sample] in H0. exists r0, g0.
  split; [exact H0|]. split; [exact Hq0|].
  intros i Hi. destruct (H (S i)) as (ri & gi & Hs & Hq); [lia|].
  rewrite (nth_sample_succ sampler i g g0 r0 H0) in Hs. eauto.
Qed.

(** The first candidate with a record of the store ends the search,
    with the result of the aggregator on its records. *)
Lemma first_scored_sample_hit (sampler : M bed_string) (query_bed : BedTool)
    (n k : nat) (g g' : rng) (r : bed_string) :
  (k < n)%nat ->
  all_unscored sampler query_bed k g ->
  nth_sample sampler k g = Ret (r, g') ->
  run_bedextract r query_bed <> [] ->
  first_scored_sample sampler query_bed n g
  = Ret (calculate_mean_score (run_bedextract r query_bed), g').
Proof.
  revert n g. induction k as [|k IH]; intros n g Hlt Hpre Hk Hq;
    (destruct n as [|n]; [lia|]); cbn [first_scored_sample]; unfold bind.
  - cbn [nth_sample] in Hk. rewrite Hk.
    destruct (run_bedextract r query_bed); [congruence | reflexivity].
  - apply all_unscored_succ in Hpre as (r0 & g0 & H0 & Hq0 & Hpre).
    rewrite (nth_sample_succ sampler k g g0 r0 H0) in Hk.
    rewrite H0, Hq0. apply IH; [lia | exact Hpre | exact Hk | exact Hq].
Qed.

(** An exception of the sampler, after candidates without records,
    leaves the search. *)
Lemma first_scored_sample_raise (sampler : M bed_string)
    (query_bed : BedTool) (n k : nat) (g : rng) (e : exn) :
  (k < n)%nat ->
  all_unscored sampler query_bed k g ->
  nth_sample sampler k g = Raise e ->
  first_scored_sample sampler query_bed n g = Raise e.
Proof.
  revert n g. induction k as [|k IH]; intros n g Hlt Hpre Hk;
    (destruct n as [|n]; [lia|]); cbn [first_scored_sample]; unfold bind.
  - cbn [nth_sample] in Hk. rewrite Hk. reflexivity.
  - apply all_unscored_succ in Hpre as (r0 & g0 & H0 & Hq0 & Hpre).
    rewrite (nth_sample_succ sampler k g g0 r0 H0) in Hk.
    rewrite H0, Hq0. apply IH; [lia | exact Hpre | exact Hk].
Qed.

(** Candidates without records in every iteration: the answer is "NA",
    with the generator that the last call of the sampler left. *)
Lemma first_scored_sample_miss (sampler : M bed_string)
    (query_bed : BedTool) (n : nat) (g : rng) :
  all_unscored sampler query_bed (S n) g ->
  exists r g', nth_sample sampler n g = Ret (r, g') /\
               first_scored_sample sampler query_bed (S n) g = Ret (NA, g').
Proof.
  revert g. induction n as [|n IH]; intros g Hpre;
    apply all_unscored_succ in Hpre as (r0 & g0 & H0 & Hq0 & Hpre);
    cbn [first_scored_sample]; unfold bind; rewrite H0, Hq0.
  - exists r0, g0. split; [exact H0 | reflexivity].
  - destruct (IH g0 Hpre) as (r & g' & Hn & Heq).
    exists r, g'. split; [|exact Heq].
    rewrite (nth_sample_succ sampler n g g0 r0 H0). exact Hn.
Qed.

(** What an outer loop [simulation] over [sampler] answers, by cases on
    the candidates that the successive calls of the sampler give. The
    loop is the search of the specification over 100 candidates and
    never needs more fuel. When candidate [k < 100] is the first one
    with records of the score store, the answer is the mean
    [numpy.mean] of the scores of these records, the sum of the scores
    over their number, and the generator is the one that call left.
    When the sampler raises at candidate [k], after candidates without
    records, so does the loop. When the 100 candidates are all without
    records, the answer is "NA". *)
Definition answers_first_scored (sampler : M bed_string)
    (query_bed : BedTool) (simulation : M score_value) : Prop :=
  forall g : rng,
    simulation g = first_scored_sample sampler query_bed 100 g /\
    simulation g <> OutOfFuel /\
    (forall (k : nat) (r : bed_string) (g' : rng),
       (k < 100)%nat ->
       all_unscored sampler query_bed k g ->
       nth_sample sampler k g = Ret (r, g') ->
       run_bedextract r query_bed <> [] ->
       exists m : Q,
         simulation g = Ret (Num m, g') /\
         m = np_mean (List.map score (run_bedextract r query_bed)) /\
         (m == arithmetic_mean
                 (List.map score (run_bedextract r query_bed)))%Q) /\
    (forall (k : nat) (e : exn),
       (k < 100)%nat ->
       all_unscored sampler query_bed k g ->
       nth_sample sampler k g = Raise e ->
       simulation g = Raise e) /\
    (all_unscored sampler query_bed 100 g ->
     exists r g', nth_sample sampler 99 g = Ret (r, g') /\
                  simulation g = Ret (NA, g')).

Lemma first_scored_sample_answers (sampler : M bed_string)
    (query_bed : BedTool) (simulation : M score_value) :
  (forall g, simulation g = first_scored_sample sampler query_bed 100 g) ->
  (forall g, sampler g <> OutOfFuel) ->
  answers_first_scored sampler query_bed simulation.
Proof.
  intros Heq Hfuel g. split; [apply Heq|]. split.
  { rewrite Heq. apply first_scored_sample_in_fuel. exact Hfuel. }
  split.
  { intros k r g' Hk Hpre Hs Hq.
    exists (np_mean (List.map score (run_bedextract r query_bed))).
    split; [|split; [reflexivity | apply np_mean_arithmetic]].
    rewrite Heq.
    rewrite (first_scored_sample_hit sampler query_bed 100 k g g' r
               Hk Hpre Hs Hq).
    rewrite (calculate_mean_score_Num _ Hq). reflexivity. }
  split.
  { intros k e Hk Hpre Hs. rewrite Heq.
    apply (first_scored_sample_raise sampler query_bed 100 k g e Hk Hpre Hs). }
  intros Hpre.
  destruct (first_scored_sample_miss sampler query_bed 99 g Hpre)
    as (r & g' & Hn & Hna).
  exists r, g'. split; [exact Hn|]. rewrite Heq. exact Hna.
Qed.

Lemma random_intragenic_simulation_searches (self : Feature)
    (allowed_regions_dict : gmap (string * string * string) (list (Z * Z)))
    (query_bed : BedTool) (g : rng) (first gene transcript : string)
    (rest : list string) (allowed_regions : list (Z * Z)) :
  str_split "_" (f_name self) = first :: gene :: transcript :: rest ->
  allowed_regions_dict !! (gene, transcript, f_chrom self)
  = Some allowed_regions ->
  random_intragenic_simulation self allowed_regions_dict query_bed g
  = first_scored_sample (random_regions self allowed_regions)
                        query_bed 100 g.
Proof.
  intros Hsplit Hkey. unfold random_intragenic_simulation.
  assert (Hc : str_contains "_" (f_name self) = true).
  { rewrite str_contains_count.
    pose proof (str_split_length "_" (f_name self)) as Hlen.
    rewrite Hsplit in Hlen. cbn [length] in Hlen.
    destruct (str_count "_" (f_name self)); [lia | reflexivity]. }
  rewrite Hc, Hsplit.
  cbn [index lookup list_lookup bind ret]. rewrite Hkey.
  apply (sample_and_query_loop (random_regions self allowed_regions)
                               query_bed 100 100 0 g);
    [reflexivity | lia].
Qed.

Lemma random_flanking_simulation_searches (self : Feature)
    (not_allowed_regions_bed query_bed : BedTool) (window_r window_l : Z)
    (g : rng) :
  random_flanking_simulation self not_allowed_regions_bed query_bed
                             window_r window_l g
  = first_scored_sample
      (random_flanking_regions self not_allowed_regions_bed
                               window_r window_l)
      query_bed 100 g.
Proof.
  apply (sample_and_query_loop
           (random_flanking_regions self not_allowed_regions_bed
                                    window_r window_l)
           query_bed 100 100 0 g);
    [reflexivity | lia].
Qed.

(** C6. The outer loop of each random simulation draws a fresh candidate
    in every iteration, up to 100 times, each draw starting from the
    generator that the draw before it left. It returns the mean score of
    the first candidate whose query of the score store is not empty:
    the sum of the scores of the records found over their number. When
    the hundred queries are all empty it returns "NA". Neither loop
    needs more than its hundred iterations. *)
Theorem random_simulations_first_scored :
  (forall self allowed_regions_dict query_bed
          first gene transcript rest allowed_regions,
     str_split "_" (f_name self) = first :: gene :: transcript :: rest ->
     allowed_regions_dict !! (gene, transcript, f_chrom self)
     = Some allowed_regions ->
     answers_first_scored
       (random_regions self allowed_regions) query_bed
       (random_intragenic_simulation self allowed_regions_dict query_bed)) /\
  (forall self not_allowed_regions_bed query_bed window_r window_l,
     answers_first_scored
       (random_flanking_regions self not_allowed_regions_bed
                                window_r window_l)
       query_bed
       (random_flanking_simulation self not_allowed_regions_bed query_bed
                                   window_r window_l)).
Proof.
  split.
  - intros self d q first gene transcript rest allowed Hsplit Hkey.
    apply first_scored_sample_answers.
    + intros g. eapply random_intragenic_simulation_searches; eassumption.
    + intros g. apply random_regions_in_fuel.
  - intros self na q wr wl.
    apply first_scored_sample_answers.
    + intros g. apply random_flanking_simulation_searches.
    + intros g. apply random_flanking_regions_in_fuel.
Qed.

Definition intragenic_index : gmap (string * string * string) (list (Z * Z)) :=
  {[ ("G", "T", "chr1") := [(5, 50)] ]}.

Definition intragenic_scores : BedTool :=
  [mkInterval "chr1" 8 9 "id-8" "+" (3 # 2);
   mkInterval "chr1" 9 10 "id-9" "+" (1 # 2)].

(** An index whose only pair is too short for the feature. *)
Definition short_index : gmap (string * string * string) (list (Z * Z)) :=
  {[ ("G", "T", "chr1") := [(5, 10)] ]}.

(** Two runs of the intragenic simulation on the feature chr1:100-110
    named "mir_G_T". With the pair [(5, 50)] and draws all zero, the
    first candidate is chr1:5-15; it finds the two records of scores
    3/2 and 1/2, and the answer is their mean, 1, after one call of the
    sampler. With the pair [(5, 10)] every candidate is the sentinel,
    the hundred queries are empty, and the answer is "NA". *)
Lemma random_simulations_first_scored_witness :
  (nth_sample (random_regions short_feature [(5, 50)]) 0 draws_zero
   = Ret (BedLine "chr1" 5 15, rng_tail draws_zero) /\
   run_bedextract (BedLine "chr1" 5 15) intragenic_scores
   = intragenic_scores /\
   exists m : Q,
     random_intragenic_simulation short_feature intragenic_index
                                  intragenic_scores draws_zero
     = Ret (Num m, rng_tail draws_zero) /\
     (m == 1)%Q) /\
  (all_unscored (random_regions short_feature [(5, 10)]) intragenic_scores
                100 draws_zero /\
   exists g',
     random_intragenic_simulation short_feature short_index
                                  intragenic_scores draws_zero
     = Ret (NA, g')).
Proof.
  assert (Hsplit : str_split "_" (f_name short_feature) = ["mir"; "G"; "T"])
    by reflexivity.
  split.
  - assert (Hkey : intragenic_index !! ("G", "T", f_chrom short_feature)
                   = Some [(5, 50)])
      by (vm_compute; reflexivity).
    assert (H0 : nth_sample (random_regions short_feature [(5, 50)]) 0
                            draws_zero
                 = Ret (BedLine "chr1" 5 15, rng_tail draws_zero))
      by reflexivity.
    assert (Hq : run_bedextract (BedLine "chr1" 5 15) intragenic_scores
                 = intragenic_scores) by reflexivity.
    split; [exact H0|]. split; [exact Hq|].
    destruct (proj1 random_simulations_first_scored
                short_feature intragenic_index intragenic_scores
                "mir" "G" "T" [] [(5, 50)] Hsplit Hkey draws_zero)
      as (_ & _ & Hhit & _).
    destruct (Hhit O (BedLine "chr1" 5 15) (rng_tail draws_zero))
      as (m & Hsim & _ & Hmean).
    + lia.
    + intros i Hi. lia.
    + exact H0.
    + rewrite Hq. discriminate.
    + exists m. split; [exact Hsim|]. rewrite Hmean, Hq. reflexivity.
  - assert (Hkey : short_index !! ("G", "T", f_chrom short_feature)
                   = Some [(5, 10)])
      by (vm_compute; reflexivity).
    assert (Hall : forall i g,
              exists g_i,
                nth_sample (random_regions short_feature [(5, 10)]) i g
                = Ret (NA_line, g_i)).
    { induction i as [|i IH]; intros g;
        destruct (random_regions_always_rejecting short_feature [(5, 10)] g)
          as (g0 & H0);
        try discriminate;
        try (intros region Hin; apply list_elem_of_singleton in Hin;
             subst region; cbn; lia).
      - exists g0. exact H0.
      - destruct (IH g0) as (g_i & Hi). exists g_i.
        rewrite (nth_sample_succ _ i g g0 NA_line H0). exact Hi. }
    assert (Hpre : all_unscored (random_regions short_feature [(5, 10)])
                                intragenic_scores 100 draws_zero).
    { intros i _. destruct (Hall i draws_zero) as (g_i & Hi).
      exists NA_line, g_i. split; [exact Hi | reflexivity]. }
    split; [exact Hpre|].
    destruct (proj1 random_simulations_first_scored
                short_feature short_index intragenic_scores
                "mir" "G" "T" [] [(5, 10)] Hsplit Hkey draws_zero)
      as (_ & _ & _ & _ & Hmiss).
    destruct (Hmiss Hpre) as (r & g' & _ & Hsim).
    exists g'. exact Hsim.
Defined.

(** ** Where the code leaves the documented behaviour *)

(** What the acceptance test of [random_flanking_regions] does ensure:
    the end of the candidate is below the upper bound of the window that
    was chosen, as it was before any shrinking, and the candidate shares
    no base with the feature. *)
Lemma random_flanking_regions_accepted (self : Feature)
    (not_allowed_regions_bed : BedTool) (window_r window_l : Z)
    (g g' : rng) (c : string) (s e : Z) :
  random_flanking_regions self not_allowed_regions_bed window_r window_l g
  = Ret (BedLine c s e, g') ->
  (e < snd (flank_right self window_r) \/
   e < snd (flank_left self window_l)) /\
  c = f_chrom self /\
  forall x, f_start self <= x < f_end self -> s <= x < e -> False.
Proof.
  unfold random_flanking_regions, random_flanking_loop.
  destruct (retry_loop _ _ _ _ _ _) as [[[r n] g1]| |] eqn:Hloop;
    try discriminate.
  cbn [run_loop]. intros H. injection H as -> ->.
  apply retry_loop_ret_inv in Hloop as (k & st_k & g_k & _ & _ & Hend).
  destruct Hend as [[st' Hb]|[_ (b & st' & _ & Hna)]]; [|discriminate].
  apply random_flanking_body_accept in Hb
    as (flanking & rs & re & Hfl & Hr & Hlt & Hov).
  injection Hr as -> -> ->.
  split; [destruct Hfl as [->| ->]; auto|].
  split; [reflexivity|].
  apply (check_overlap_false_disjoint _ _ _ _ _ Hov).
Qed.

(** A not-allowed record chr1:115-200, five bases after the end of the
    feature chr1:100-110. *)
Definition downstream_gene : BedTool :=
  [mkInterval "chr1" 115 200 "gene" "+" 0].

(** Draws that choose the right window, then the offset 2. *)
Definition draws_right_2 : rng :=
  fun i => match i with O => 0%N | _ => 2%N end.

(** C2. With the not-allowed record chr1:115-200 after the feature
    chr1:100-110, the right window chr1:111-10110 is shrunk to the gap
    [[110, 115)]; the draw 112 gives the candidate chr1:112-122, which
    [random_flanking_regions] returns although it ends after the gap
    and overlaps the not-allowed record: the end is tested against the
    bound of the window, 10110, not against the end of the gap. *)
Theorem random_flanking_regions_leaves_gap :
  run_bedextract (BedLine "chr1" 111 10110) downstream_gene
  = downstream_gene /\
  random_flanking_regions short_feature downstream_gene 10000 10000
                          draws_right_2
  = Ret (BedLine "chr1" 112 122, rng_tail (rng_tail draws_right_2)) /\
  115 < 122 /\
  run_bedextract (BedLine "chr1" 112 122) downstream_gene <> [].
Proof.
  split; [reflexivity|]. split; [reflexivity|]. split; [lia | discriminate].
Qed.

(** A not-allowed record chr1:90-105 across the start of the feature
    chr1:100-110. *)
Definition spanning_gene : BedTool :=
  [mkInterval "chr1" 90 105 "gene" "+" 0].

(** Draws that always choose the left window. *)
Definition draws_one : rng := fun _ => 1%N.

(** The feature chr1:1-11, whose left window is the empty range
    [[0, 0)]. *)
Definition first_base_feature : Feature :=
  Feature_init (mkInterval "chr1" 1 11 "mir_G_T" "+" 0).

(** C3. The core does raise: [random_regions] fails with [IndexError]
    on an empty allowed list and with [ValueError] on an allowed pair of
    length zero; [random_intragenic_simulation] fails with [IndexError]
    on the feature name "mir_ENSG1"; [random_flanking_regions] and
    [random_flanking_simulation] fail with [ValueError] when a
    not-allowed record lies across the start of the feature, and when
    the feature starts at base 1 and the left window is chosen. *)
Theorem core_operations_raise :
  (forall self g, random_regions self [] g = Raise IndexError) /\
  (forall self a g, random_regions self [(a, a)] g = Raise ValueError) /\
  (forall allowed_regions_dict query_bed g,
     random_intragenic_simulation one_underscore_feature
                                  allowed_regions_dict query_bed g
     = Raise IndexError) /\
  random_flanking_regions short_feature spanning_gene 10000 10000 draws_one
  = Raise ValueError /\
  (forall query_bed,
     random_flanking_simulation short_feature spanning_gene query_bed
                                10000 10000 draws_one
     = Raise ValueError) /\
  (forall query_bed,
     random_flanking_simulation first_base_feature [] query_bed
                                10000 10000 draws_one
     = Raise ValueError).
Proof.
  split; [reflexivity|].
  split.
  { intros self a g. unfold random_regions, random_regions_loop.
    cbn [retry_loop]. unfold random_regions_body, bind.
    cbn [shuffle length Nat.sub shuffle_from ret index lookup list_lookup
         fst snd].
    rewrite randrange_empty by lia. reflexivity. }
  split; [reflexivity|].
  split; [reflexivity|].
  split; reflexivity.
Qed.

(** * Further properties of the code *)

Local Open Scope list_scope.

(** ** The allowed-region dictionary of [get_regions] *)

(** The key under which a record of the regions file is filed, when its
    name has an underscore. *)
Definition region_fields (region : Interval)
  : option (string * string * string) :=
  if str_contains "_" (name region) then
    match str_split "_" (name region) with
    | gene :: transcript :: _ => Some (gene, transcript, chrom region)
    | _ => None
    end
  else None.

(** The [(start, end)] pairs of the records filed under [key], in file
    order. *)
Definition pairs_for (key : string * string * string) (regions : BedTool)
  : list (Z * Z) :=
  List.map (fun r => (start r, end_ r))
           (List.filter (fun r => bool_decide (region_fields r = Some key))
                        regions).

(** The list held under a tuple key, empty when there is none. *)
Definition held (d : gmap region_key region_value)
    (key : string * string * string) : list (Z * Z) :=
  match d !! (inl key : region_key) with
  | Some (Regions l) => l
  | _ => []
  end.

(** Tuple keys hold non-empty lists, bare names hold "None". *)
Definition well_kept (d : gmap region_key region_value) : Prop :=
  (forall key v, d !! (inl key : region_key) = Some v ->
                 exists l, v = Regions l /\ l <> []) /\
  (forall n v, d !! (inr n : region_key) = Some v -> v = NoneString).

Lemma underscore_two_fields (s : string) :
  str_contains "_" s = true ->
  exists gene transcript rest, str_split "_" s = gene :: transcript :: rest.
Proof.
  intros H. rewrite str_contains_count in H.
  pose proof (str_split_length "_" s) as Hlen.
  destruct (str_count "_" s) as [|n]; [discriminate H|].
  destruct (str_split "_" s) as [|a [|b l]]; try discriminate Hlen.
  eauto.
Qed.

Lemma region_fields_underscore (region : Interval) :
  str_contains "_" (name region) = true ->
  exists gene transcript rest,
    str_split "_" (name region) = gene :: transcript :: rest /\
    region_fields region = Some (gene, transcript, chrom region).
Proof.
  intros H. destruct (underscore_two_fields _ H) as (g & t & rest & Hs).
  exists g, t, rest. split; [exact Hs|].
  unfold region_fields. rewrite H, Hs. reflexivity.
Qed.

Lemma pairs_for_cons (key : string * string * string) (region : Interval)
    (rest : BedTool) :
  pairs_for key (region :: rest)
  = (if bool_decide (region_fields region = Some key)
     then [(start region, end_ region)] else [])
    ++ pairs_for key rest.
Proof.
  unfold pairs_for. cbn [List.filter].
  destruct (bool_decide (region_fields region = Some key)); reflexivity.
Qed.

Lemma get_regions_step_spec (d : gmap region_key region_value)
    (region : Interval) :
  well_kept d ->
  exists d', get_regions_step d region = Built d' /\
    well_kept d' /\
    (forall key,
       held d' key
       = held d key ++ (if bool_decide (region_fields region = Some key)
                        then [(start region, end_ region)] else [])) /\
    (forall n,
       d' !! (inr n : region_key)
       = if bool_decide (region_fields region = None /\ name region = n)
         then Some NoneString else d !! (inr n : region_key)).
Proof.
  intros [Htup Hstr]. unfold get_regions_step.
  destruct (str_contains "_" (name region)) eqn:Hc.
  - destruct (region_fields_underscore region Hc)
      as (gene & transcript & rest & Hsplit & Hfields).
    rewrite Hsplit. cbn [lookup list_lookup].
    set (key0 := (gene, transcript, chrom region)).
    assert (Hscalar : forall n (d' : gmap region_key region_value),
              (forall k : region_key, k <> inl key0 -> d' !! k = d !! k) ->
              d' !! (inr n : region_key)
              = if bool_decide (region_fields region = None /\
                                name region = n)
                then Some NoneString else d !! (inr n : region_key)).
    { intros n d' Hd'. rewrite Hd' by discriminate.
      rewrite bool_decide_eq_false_2; [reflexivity|].
      rewrite Hfields. intros [? _]; discriminate. }
    destruct (d !! (inl key0 : region_key)) as [v|] eqn:Hlk.
    + destruct (Htup _ _ Hlk) as (l & -> & Hne).
      eexists. split; [reflexivity|]. split; [split|split].
      * intros key v Hv. rewrite lookup_insert in Hv.
        case_decide as E.
        -- injection Hv as <-. eexists. split; [reflexivity|].
           destruct l; discriminate.
        -- eapply Htup. exact Hv.
      * intros n v Hv. rewrite lookup_insert_ne in Hv by discriminate.
        eapply Hstr. exact Hv.
      * intros key. unfold held. rewrite lookup_insert.
        rewrite Hfields. destruct (decide (key0 = key)) as [<-|Hne'].
        -- case_decide; [|congruence].
           rewrite bool_decide_eq_true_2 by reflexivity.
           rewrite Hlk. reflexivity.
        -- case_decide; [congruence|].
           rewrite bool_decide_eq_false_2
             by (intros [= E']; apply Hne'; exact E').
           rewrite app_nil_r. reflexivity.
      * intros n. apply Hscalar. intros k Hk.
        apply lookup_insert_ne. congruence.
    + eexists. split; [reflexivity|]. split; [split|split].
      * intros key v Hv. rewrite lookup_insert in Hv.
        case_decide as E.
        -- injection Hv as <-. eexists. split; [reflexivity|discriminate].
        -- eapply Htup. exact Hv.
      * intros n v Hv. rewrite lookup_insert_ne in Hv by discriminate.
        eapply Hstr. exact Hv.
      * intros key. unfold held. rewrite lookup_insert.
        rewrite Hfields. destruct (decide (key0 = key)) as [<-|Hne'].
        -- case_decide; [|congruence].
           rewrite bool_decide_eq_true_2 by reflexivity.
           rewrite Hlk. reflexivity.
        -- case_decide; [congruence|].
           rewrite bool_decide_eq_false_2
             by (intros [= E']; apply Hne'; exact E').
           rewrite app_nil_r. reflexivity.
      * intros n. apply Hscalar. intros k Hk.
        apply lookup_insert_ne. congruence.
  - assert (Hfields : region_fields region = None)
      by (unfold region_fields; rewrite Hc; reflexivity).
    eexists. split; [reflexivity|]. split; [split|split].
    + intros key v Hv. rewrite lookup_insert_ne in Hv by discriminate.
      eapply Htup. exact Hv.
    + intros n v Hv. rewrite lookup_insert in Hv. case_decide.
      * congruence.
      * eapply Hstr. exact Hv.
    + intros key. unfold held.
      rewrite lookup_insert_ne by discriminate.
      rewrite Hfields, bool_decide_eq_false_2 by discriminate.
      rewrite app_nil_r. reflexivity.
    + intros n. rewrite lookup_insert.
      destruct (decide (name region = n)) as [<-|Hne].
      * case_decide; [|congruence].
        rewrite bool_decide_eq_true_2 by auto. reflexivity.
      * case_decide; [congruence|].
        rewrite bool_decide_eq_false_2 by tauto. reflexivity.
Qed.

(** The bare names filed by [get_regions]. *)
Definition bare_name_in (n : string) (regions : BedTool) : bool :=
  existsb (fun r => bool_decide (region_fields r = None /\ name r = n))
          regions.

Lemma get_regions_from_spec (regions : BedTool)
    (d : gmap region_key region_value) :
  well_kept d ->
  exists d', get_regions_from d regions = Built d' /\
    well_kept d' /\
    (forall key, held d' key = held d key ++ pairs_for key regions) /\
    (forall n,
       d' !! (inr n : region_key)
       = if bool_decide (bare_name_in n regions = true)
         then Some NoneString else d !! (inr n : region_key)).
Proof.
  revert d. induction regions as [|region rest IH]; intros d Hd.
  - exists d. split; [reflexivity|]. split; [exact Hd|]. split.
    + intros key. cbn. rewrite app_nil_r. reflexivity.
    + intros n. reflexivity.
  - cbn [get_regions_from].
    destruct (get_regions_step_spec d region Hd)
      as (d1 & -> & Hd1 & Hheld1 & Hbare1).
    destruct (IH d1 Hd1) as (d' & Heq & Hd' & Hheld & Hbare).
    exists d'. split; [exact Heq|]. split; [exact Hd'|]. split.
    + intros key. rewrite Hheld, Hheld1, pairs_for_cons, app_assoc.
      reflexivity.
    + intros n. rewrite Hbare, Hbare1. unfold bare_name_in.
      cbn [existsb].
      destruct (bool_decide (region_fields region = None /\ name region = n));
        cbn [orb]; [|reflexivity].
      destruct (bool_decide (existsb _ rest = true)); reflexivity.
Qed.

Lemma tuple_index_lookup (d : gmap region_key region_value)
    (key : string * string * string) :
  tuple_index d !! key
  = match d !! (inl key : region_key) with
    | Some (Regions l) => Some l
    | _ => None
    end.
Proof.
  unfold tuple_index.
  apply (map_fold_weak_ind
           (fun (acc : gmap (string * string * string) (list (Z * Z)))
                (m : gmap region_key region_value) =>
              acc !! key = match m !! (inl key : region_key) with
                           | Some (Regions l) => Some l
                           | _ => None
                           end)).
  - rewrite !lookup_empty. reflexivity.
  - intros i x m r Hi IH.
    destruct i as [key'|n].
    + destruct (decide (key' = key)) as [->|Hne].
      * rewrite lookup_insert_eq. rewrite Hi in IH.
        destruct x as [l|]; [apply lookup_insert_eq | exact IH].
      * rewrite (lookup_insert_ne m) by congruence.
        destruct x as [l|]; [|exact IH].
        rewrite lookup_insert_ne by exact Hne. exact IH.
    + rewrite (lookup_insert_ne m) by discriminate. exact IH.
Qed.

Lemma well_kept_empty : well_kept ∅.
Proof. split; intros k v H; rewrite lookup_empty in H; discriminate. Qed.

Lemma get_regions_built (regions : BedTool) :
  exists d, get_regions regions = Built d /\
    well_kept d /\
    (forall key, held d key = pairs_for key regions) /\
    (forall n,
       d !! (inr n : region_key)
       = if bare_name_in n regions then Some NoneString else None).
Proof.
  destruct (get_regions_from_spec regions ∅ well_kept_empty)
    as (d & Heq & Hd & Hheld & Hbare).
  exists d. split; [exact Heq|]. split; [exact Hd|]. split.
  - intros key. rewrite Hheld. unfold held. rewrite lookup_empty.
    reflexivity.
  - intros n. rewrite Hbare, lookup_empty.
    destruct (bare_name_in n regions); reflexivity.
Qed.

Lemma well_kept_lookup (d : gmap region_key region_value)
    (key : string * string * string) :
  well_kept d ->
  tuple_index d !! key
  = match held d key with
    | [] => None
    | l => Some l
    end.
Proof.
  intros [Htup _]. rewrite tuple_index_lookup. unfold held.
  destruct (d !! (inl key : region_key)) as [v|] eqn:Hlk; [|reflexivity].
  destruct (Htup _ _ Hlk) as (l & -> & Hne).
  destruct l; [congruence | reflexivity].
Qed.

(** X1. [get_regions] never fails. A lookup with a tuple key
    [(gene, transcript, chrom)] finds the [(start, end)] pairs of the
    records of the file whose name starts with the fields [gene] and
    [transcript] and whose chromosome is [chrom], in file order, and
    finds nothing when there is no such record: a list that is found is
    never empty. *)
Theorem get_regions_lookup (regions : BedTool) :
  exists d, get_regions regions = Built d /\
    forall key : string * string * string,
      d !! (inl key : region_key)
      = match pairs_for key regions with
        | [] => None
        | l => Some (Regions l)
        end /\
      tuple_index d !! key
      = match pairs_for key regions with
        | [] => None
        | l => Some l
        end.
Proof.
  destruct (get_regions_built regions) as (d & Heq & Hd & Hheld & _).
  exists d. split; [exact Heq|]. intros key. split.
  - rewrite <- Hheld. unfold held. destruct Hd as [Htup _].
    destruct (d !! (inl key : region_key)) as [v|] eqn:Hlk; [|reflexivity].
    destruct (Htup _ _ Hlk) as (l & -> & Hne).
    destruct l; [congruence | reflexivity].
  - rewrite <- Hheld. apply well_kept_lookup. exact Hd.
Qed.

Lemma bare_name_in_eq (n : string) (regions : BedTool) :
  bare_name_in n regions
  = existsb (fun r => negb (str_contains "_" (name r)) &&
                      String.eqb (name r) n) regions.
Proof.
  unfold bare_name_in.
  induction regions as [|r rest IH]; [reflexivity|].
  cbn [existsb]. rewrite IH. f_equal.
  unfold region_fields.
  destruct (str_contains "_" (name r)) eqn:Hc; cbn [negb andb].
  - destruct (underscore_two_fields _ Hc) as (g & t & l & ->).
    apply bool_decide_eq_false_2. intros [? _]; discriminate.
  - destruct (String.eqb_spec (name r) n) as [E|E].
    + apply bool_decide_eq_true_2. auto.
    + apply bool_decide_eq_false_2. tauto.
Qed.

(** X2. A record whose name has no underscore is filed under its bare
    name with the string "None", and these are the only bare names in
    the dictionary; no tuple key ever holds that string. *)
Theorem get_regions_bare_names (regions : BedTool) :
  exists d, get_regions regions = Built d /\
    (forall n : string,
       d !! (inr n : region_key)
       = if existsb (fun r => negb (str_contains "_" (name r)) &&
                              String.eqb (name r) n) regions
         then Some NoneString else None) /\
    (forall key : string * string * string,
       d !! (inl key : region_key) <> Some NoneString).
Proof.
  destruct (get_regions_built regions) as (d & Heq & Hd & _ & Hbare).
  exists d. split; [exact Heq|]. split.
  - intros n. rewrite Hbare, bare_name_in_eq. reflexivity.
  - intros key H. destruct Hd as [Htup _].
    destruct (Htup _ _ H) as (l & Hl & _). discriminate.
Qed.

Definition get_regions_example : BedTool :=
  [mkInterval "chr1" 5 50 "G_T_intron1" "+" 0;
   mkInterval "chr1" 60 90 "G_T_intron2" "+" 0;
   mkInterval "chr2" 5 50 "G_T_intron1" "+" 0;
   mkInterval "chr1" 7 9 "lonely" "+" 0].

(** ** Inputs on which the intragenic mode cannot fail *)

(** An allowed list on which [random_regions] is safe: it is not empty
    and each pair has a positive length. *)
Definition usable_regions (allowed_regions : list (Z * Z)) : Prop :=
  allowed_regions <> [] /\
  forall region, region ∈ allowed_regions -> fst region < snd region.

Lemma retry_loop_ret {St A B : Type} (body : St -> M ((A + B) * St))
    (fallback : B -> A) (fuel : nat) (attempts : Z) (st : St) (g : rng) :
  (forall st g, exists x, body st g = Ret x) ->
  attempts < MAX_ATTEMPTS ->
  MAX_ATTEMPTS - attempts <= Z.of_nat fuel ->
  exists x, retry_loop body fallback fuel attempts st g = Ret x.
Proof.
  intros Hbody. revert attempts st g.
  induction fuel as [|fuel IH]; intros attempts st g Hlt Hfuel; [lia|].
  cbn [retry_loop]. destruct (Hbody st g) as ([[[a|b] st'] g'] & ->).
  - eauto.
  - destruct (attempts + 1 =? MAX_ATTEMPTS) eqn:E; [eauto|].
    apply Z.eqb_neq in E. apply IH; lia.
Qed.

Lemma random_regions_body_ret (self : Feature)
    (allowed_regions : list (Z * Z)) (st : unit) (g : rng) :
  usable_regions allowed_regions ->
  exists x, random_regions_body self allowed_regions st g = Ret x.
Proof.
  intros [Hne Hall]. unfold random_regions_body, bind.
  destruct (shuffle_ret allowed_regions g) as (x' & g1 & -> & Hlen & Hin).
  destruct x' as [|region rest].
  { destruct allowed_regions; [congruence | discriminate Hlen]. }
  cbn [index lookup list_lookup ret].
  assert (Hreg : fst region < snd region)
    by (apply Hall, Hin, elem_of_cons; left; reflexivity).
  destruct (randrange_cases (fst region) (snd region) g1)
    as [(r & g2 & ->)|Hr].
  - destruct (_ && _); unfold ret; eauto.
  - exfalso. unfold randrange in Hr.
    destruct (0 <? snd region - fst region) eqn:E.
    + unfold bind, randbelow, ret in Hr. discriminate.
    + apply Z.ltb_ge in E. lia.
Qed.

Lemma random_regions_ret (self : Feature) (allowed_regions : list (Z * Z))
    (g : rng) :
  usable_regions allowed_regions ->
  exists r g', random_regions self allowed_regions g = Ret (r, g').
Proof.
  intros Hok. unfold random_regions, random_regions_loop.
  destruct (retry_loop_ret (random_regions_body self allowed_regions)
              (fun _ => NA_line) 100 0 tt g) as ([[r n] g'] & ->).
  - intros st g0. apply random_regions_body_ret. exact Hok.
  - reflexivity.
  - unfold MAX_ATTEMPTS. lia.
  - cbn [run_loop]. eauto.
Qed.

(** X3. On an allowed list that is not empty and whose pairs all have
    [start < end], [random_regions] raises nothing, whatever the feature
    and the draws: it returns an interval or the sentinel. *)
Theorem random_regions_total (self : Feature)
    (allowed_regions : list (Z * Z)) (g : rng) :
  allowed_regions <> [] ->
  (forall region, region ∈ allowed_regions -> fst region < snd region) ->
  exists r g', random_regions self allowed_regions g = Ret (r, g').
Proof.
  intros Hne Hall. apply random_regions_ret. split; assumption.
Qed.

Lemma random_regions_total_witness :
  [(5, 50); (60, 90)] <> [] /\
  exists r g',
    random_regions short_feature [(5, 50); (60, 90)] draws_one
    = Ret (r, g').
Proof.
  assert (Hne : [(5, 50); (60, 90)] <> []) by discriminate.
  split; [exact Hne|].
  apply (random_regions_total short_feature [(5, 50); (60, 90)] draws_one Hne).
  intros region Hin.
  apply elem_of_cons in Hin as [->|Hin]; [cbn; lia|].
  apply list_elem_of_singleton in Hin. subst region. cbn. lia.
Defined.

Lemma first_scored_sample_ret (sampler : M bed_string) (query_bed : BedTool)
    (n : nat) (g : rng) :
  (forall g, exists r g', sampler g = Ret (r, g')) ->
  exists v g', first_scored_sample sampler query_bed n g = Ret (v, g') /\
               (v = NA \/ exists m, v = Num m).
Proof.
  intros Hs. revert g. induction n as [|n IH]; intros g.
  - exists NA, g. split; [reflexivity | left; reflexivity].
  - cbn [first_scored_sample]. unfold bind.
    destruct (Hs g) as (r & g1 & ->).
    destruct (run_bedextract r query_bed) as [|r0 matches]; [apply IH|].
    eexists _, g1. split; [reflexivity|]. right. eexists. reflexivity.
Qed.

(** An index whose lists are all usable. *)
Definition usable_index
    (allowed_regions_dict : gmap (string * string * string) (list (Z * Z)))
  : Prop :=
  forall key allowed_regions,
    allowed_regions_dict !! key = Some allowed_regions ->
    usable_regions allowed_regions.

Lemma random_intragenic_simulation_ret (self : Feature)
    (allowed_regions_dict : gmap (string * string * string) (list (Z * Z)))
    (query_bed : BedTool) (g : rng) :
  usable_index allowed_regions_dict ->
  str_count "_" (f_name self) <> 1%nat ->
  exists v g',
    random_intragenic_simulation self allowed_regions_dict query_bed g
    = Ret (v, g').
Proof.
  intros Hidx Hname. unfold random_intragenic_simulation.
  rewrite str_contains_count.
  destruct (str_count "_" (f_name self)) as [|[|n]] eqn:Hc;
    [eexists _, _; reflexivity | congruence |].
  cbn [Nat.eqb negb].
  pose proof (str_split_length "_" (f_name self)) as Hlen.
  rewrite Hc in Hlen.
  destruct (str_split "_" (f_name self)) as [|a [|gene [|transcript l]]];
    try discriminate Hlen.
  cbn [index lookup list_lookup bind ret].
  destruct (allowed_regions_dict !! (gene, transcript, f_chrom self))
    as [allowed|] eqn:Hkey; [|eexists _, _; reflexivity].
  change (run_loop (random_intragenic_loop self allowed query_bed 100 g))
    with (run_loop (retry_loop
                      (sample_and_query (random_regions self allowed)
                                        query_bed)
                      calculate_mean_score 100 0 tt g)).
  rewrite (sample_and_query_loop (random_regions self allowed) query_bed
                                 100 100 0 g) by (reflexivity || lia).
  destruct (first_scored_sample_ret (random_regions self allowed) query_bed
              100 g) as (v & g' & Heq & _).
  - intros g0. apply random_regions_ret. eapply Hidx. exact Hkey.
  - eauto.
Qed.

(** X4. With an index whose lists are all non-empty with pairs of
    positive length, [random_intragenic_simulation] raises nothing for
    any feature whose name does not have exactly one underscore: it
    answers "NameError1" without underscore, "NameError2" for an unknown
    key, and a mean score or "NA" otherwise. *)
Theorem random_intragenic_simulation_total (self : Feature)
    (allowed_regions_dict : gmap (string * string * string) (list (Z * Z)))
    (query_bed : BedTool) (g : rng) :
  (forall key allowed_regions,
     allowed_regions_dict !! key = Some allowed_regions ->
     allowed_regions <> [] /\
     forall region, region ∈ allowed_regions -> fst region < snd region) ->
  str_count "_" (f_name self) <> 1%nat ->
  exists v g',
    random_intragenic_simulation self allowed_regions_dict query_bed g
    = Ret (v, g').
Proof.
  intros Hidx Hname. apply random_intragenic_simulation_ret; assumption.
Qed.

Lemma random_intragenic_simulation_total_witness :
  str_count "_" (f_name short_feature) <> 1%nat /\
  exists v g',
    random_intragenic_simulation short_feature intragenic_index
                                 intragenic_scores draws_zero
    = Ret (v, g').
Proof.
  assert (Hname : str_count "_" (f_name short_feature) <> 1%nat)
    by (cbn; lia).
  split; [exact Hname|].
  apply (random_intragenic_simulation_total short_feature intragenic_index
           intragenic_scores draws_zero); [|exact Hname].
  intros key allowed Hlk. unfold intragenic_index in Hlk.
  apply lookup_singleton_Some in Hlk as [_ <-].
  split; [discriminate|].
  intros region Hin. apply list_elem_of_singleton in Hin. subst region.
  cbn. lia.
Defined.

Lemma pairs_for_positive (key : string * string * string)
    (regions : BedTool) (region : Z * Z) :
  (forall r, r ∈ regions -> start r < end_ r) ->
  region ∈ pairs_for key regions ->
  fst region < snd region.
Proof.
  intros Hall Hin. apply list_elem_of_In in Hin. unfold pairs_for in Hin.
  apply in_map_iff in Hin as (r & <- & Hr).
  apply filter_In in Hr as [Hr _]. cbn.
  apply Hall, list_elem_of_In. exact Hr.
Qed.

Lemma get_regions_usable (regions : BedTool)
    (d : gmap region_key region_value) :
  (forall r, r ∈ regions -> start r < end_ r) ->
  well_kept d ->
  (forall key, held d key = pairs_for key regions) ->
  usable_index (tuple_index d).
Proof.
  intros Hall Hd Hheld key allowed Hlk.
  rewrite (well_kept_lookup d key Hd), Hheld in Hlk.
  destruct (pairs_for key regions) as [|p l] eqn:Hp; [discriminate|].
  injection Hlk as <-. split; [discriminate|].
  intros region Hin. apply (pairs_for_positive key regions); [exact Hall|].
  rewrite Hp. exact Hin.
Qed.

(** X5. From the regions file to the sampler: for a feature named
    [first_gene_transcript...], the intragenic simulation on the
    dictionary of [get_regions] answers "NameError2" when the file has
    no record named [gene_transcript...] on the chromosome of the
    feature, and otherwise samples from the [(start, end)] pairs of
    exactly those records; when every record of the file has
    [start < end] it raises nothing. *)
Theorem get_regions_feeds_sampler (regions : BedTool) (self : Feature)
    (query_bed : BedTool) (g : rng) (first gene transcript : string)
    (rest : list string) :
  str_split "_" (f_name self) = first :: gene :: transcript :: rest ->
  exists d, get_regions regions = Built d /\
    random_intragenic_simulation self (tuple_index d) query_bed g
    = match pairs_for (gene, transcript, f_chrom self) regions with
      | [] => Ret (NameError2, g)
      | allowed_regions =>
          first_scored_sample (random_regions self allowed_regions)
                              query_bed 100 g
      end /\
    ((forall r, r ∈ regions -> start r < end_ r) ->
     exists v g',
       random_intragenic_simulation self (tuple_index d) query_bed g
       = Ret (v, g')).
Proof.
  intros Hsplit.
  destruct (get_regions_built regions) as (d & Heq & Hd & Hheld & _).
  exists d. split; [exact Heq|].
  assert (Hc : str_contains "_" (f_name self) = true).
  { rewrite str_contains_count.
    pose proof (str_split_length "_" (f_name self)) as Hlen.
    rewrite Hsplit in Hlen. cbn [length] in Hlen.
    destruct (str_count "_" (f_name self)); [lia | reflexivity]. }
  split.
  - unfold random_intragenic_simulation. rewrite Hc, Hsplit.
    cbn [index lookup list_lookup bind ret].
    rewrite (well_kept_lookup d _ Hd), Hheld.
    destruct (pairs_for (gene, transcript, f_chrom self) regions)
      as [|p l]; [reflexivity|].
    apply (sample_and_query_loop (random_regions self (p :: l)) query_bed
                                 100 100 0 g); [reflexivity | lia].
  - intros Hall. apply random_intragenic_simulation_ret.
    + eapply get_regions_usable; eassumption.
    + pose proof (str_split_length "_" (f_name self)) as Hlen.
      rewrite Hsplit in Hlen. cbn [length] in Hlen. lia.
Qed.

Lemma get_regions_feeds_sampler_witness :
  str_split "_" (f_name short_feature) = ["mir"; "G"; "T"] /\
  pairs_for ("G", "T", "chr1") get_regions_example = [(5, 50); (60, 90)] /\
  exists d, get_regions get_regions_example = Built d /\
    random_intragenic_simulation short_feature (tuple_index d)
                                 intragenic_scores draws_zero
    = first_scored_sample
        (random_regions short_feature [(5, 50); (60, 90)])
        intragenic_scores 100 draws_zero.
Proof.
  assert (Hsplit : str_split "_" (f_name short_feature) = ["mir"; "G"; "T"])
    by reflexivity.
  split; [exact Hsplit|]. split; [reflexivity|].
  destruct (get_regions_feeds_sampler get_regions_example short_feature
              intragenic_scores draws_zero "mir" "G" "T" [] Hsplit)
    as (d & Hd & Hsim & _).
  exists d. split; [exact Hd | exact Hsim].
Defined.

(** ** The windows of the random flanking sampler *)

Lemma flank_right_bounds (self : Feature) (window_r : Z) :
  1 <= window_r ->
  flank_right self window_r = (f_end self + 1, f_end self + window_r).
Proof.
  intros H. unfold flank_right, sorted2. f_equal; lia.
Qed.

Lemma flank_left_bounds (self : Feature) (window_l : Z) :
  1 <= f_start self -> 1 <= window_l ->
  flank_left self window_l
  = (Z.max 0 (f_start self - window_l), f_start self - 1).
Proof.
  intros Hs Hw. unfold flank_left, sorted2.
  destruct (window_l >=? f_start self) eqn:E.
  - apply Z.geb_le in E. f_equal; lia.
  - assert (window_l < f_start self)
      by (destruct (Z.geb_spec window_l (f_start self)); [discriminate|lia]).
    f_equal; lia.
Qed.

Lemma bedextract_overlaps (bed_file : BedTool) (c : string) (s e : Z)
    (r : Interval) :
  r ∈ bedextract bed_file c s e <->
  r ∈ bed_file /\ chrom r = c /\ Z.max (start r) s < Z.min (end_ r) e.
Proof.
  unfold bedextract. rewrite !list_elem_of_In, filter_In. unfold overlaps.
  rewrite andb_true_iff, String.eqb_eq, Z.ltb_lt. tauto.
Qed.

(** Where an accepted candidate of [random_flanking_regions] was drawn,
    when the upper bound of the left window is before the feature and
    that of the right window after it. *)
Lemma random_flanking_body_drawn (self : Feature) (na : BedTool)
    (right left : Z * Z) (locals locals' : option (Z * Z)) (g g' : rng)
    (r : bed_string) :
  f_start self <= f_end self ->
  snd left < f_start self ->
  f_end self < snd right ->
  random_flanking_body self na right left locals g = Ret (inl r, locals', g') ->
  exists rs : Z,
    r = BedLine (f_chrom self) rs (rs + f_size self) /\
    check_overlap (BedLine (f_chrom self) (f_start self) (f_end self)) r
    = false /\
    ((rs + f_size self < snd right /\
      let gene_overlap :=
        bedextract na (f_chrom self) (fst right) (snd right) in
      match gene_overlap !! 0%nat with
      | None => fst right <= rs < snd right
      | Some gene => f_end self <= rs < start gene
      end) \/
     (rs + f_size self < snd left /\
      let gene_overlap :=
        bedextract na (f_chrom self) (fst left) (snd left) in
      match gene_overlap !! (length gene_overlap - 1)%nat with
      | None => fst left <= rs < snd left
      | Some gene => end_ gene <= rs < f_start self
      end)).
Proof.
  intros Hse Hleft Hright. unfold random_flanking_body. intros H.
  cbv zeta.
  apply bind_ret_inv in H as (flanking & g1 & Hch & H).
  destruct (choice2_cases right left g) as (c & g2 & Hch2 & Hc).
  rewrite Hch2 in Hch. injection Hch as -> ->.
  apply bind_ret_inv in H as (loc & g3 & Hloc & H).
  cbn [run_bedextract] in Hloc.
  assert (Hfin : forall rs,
            loc = Some (rs, rs + f_size self) ->
            exists rs0 : Z,
              r = BedLine (f_chrom self) rs0 (rs0 + f_size self) /\
              check_overlap
                (BedLine (f_chrom self) (f_start self) (f_end self)) r
              = false /\
              rs0 = rs /\ rs + f_size self < snd flanking).
  { intros rs ->.
    destruct (rs + f_size self <? snd flanking) eqn:Hend; [|discriminate].
    destruct (check_overlap _ _) eqn:Hov; [discriminate|].
    cbn in H. injection H as <- _ _.
    exists rs. split; [reflexivity|]. split; [exact Hov|].
    split; [reflexivity | apply Z.ltb_lt; exact Hend]. }
  destruct Hc as [->| ->].
  - (* the right window *)
    replace (snd right <? f_start self) with false in Hloc
      by (symmetry; apply Z.ltb_ge; lia).
    replace (snd right >? f_end self) with true in Hloc
      by (symmetry; apply Z.gtb_lt; lia).
    destruct (bedextract na (f_chrom self) (fst right) (snd right))
      as [|gene genes] eqn:Hov; cbn [nonempty] in Hloc.
    + apply bind_ret_inv in Hloc as (rs & g4 & Hrr & Hloc).
      apply randrange_range in Hrr. injection Hloc as <- _.
      destruct (Hfin rs eq_refl) as (rs0 & Hr & Hno & -> & Hlt).
      exists rs. split; [exact Hr|]. split; [exact Hno|]. left.
      split; [exact Hlt|]. cbn. exact Hrr.
    + apply bind_ret_inv in Hloc as (gene0 & g4 & Hidx & Hloc).
      cbn in Hidx. injection Hidx as <- <-.
      apply bind_ret_inv in Hloc as (rs & g5 & Hrr & Hloc).
      apply randrange_range in Hrr. injection Hloc as <- _.
      destruct (Hfin rs eq_refl) as (rs0 & Hr & Hno & -> & Hlt).
      exists rs. split; [exact Hr|]. split; [exact Hno|]. left.
      split; [exact Hlt|]. cbn. lia.
  - (* the left window *)
    replace (snd left <? f_start self) with true in Hloc
      by (symmetry; apply Z.ltb_lt; lia).
    destruct (bedextract na (f_chrom self) (fst left) (snd left))
      as [|gene genes] eqn:Hov; cbn [nonempty] in Hloc.
    + apply bind_ret_inv in Hloc as (rs & g4 & Hrr & Hloc).
      apply randrange_range in Hrr. injection Hloc as <- _.
      destruct (Hfin rs eq_refl) as (rs0 & Hr & Hno & -> & Hlt).
      exists rs. split; [exact Hr|]. split; [exact Hno|]. right.
      split; [exact Hlt|]. cbn. exact Hrr.
    + apply bind_ret_inv in Hloc as (gene0 & g4 & Hidx & Hloc).
      unfold index in Hidx.
      destruct ((gene :: genes) !! (length (gene :: genes) - 1)%nat)
        as [last_gene|] eqn:Hlast; [|discriminate].
      injection Hidx as <- <-.
      apply bind_ret_inv in Hloc as (rs & g5 & Hrr & Hloc).
      apply randrange_range in Hrr. injection Hloc as <- _.
      destruct (Hfin rs eq_refl) as (rs0 & Hr & Hno & -> & Hlt).
      exists rs. split; [exact Hr|]. split; [exact Hno|]. right.
      split; [exact Hlt|].
      match goal with
      | |- match ?x with _ => _ end =>
          replace x with (Some last_gene) by (symmetry; exact Hlast)
      end.
      lia.
Qed.

Lemma random_flanking_regions_drawn (self : Feature) (na : BedTool)
    (window_r window_l : Z) (g g' : rng) (c : string) (s e : Z) :
  1 <= f_start self <= f_end self ->
  1 <= window_r -> 1 <= window_l ->
  random_flanking_regions self na window_r window_l g
  = Ret (BedLine c s e, g') ->
  c = f_chrom self /\ e = s + f_size self /\
  check_overlap (BedLine (f_chrom self) (f_start self) (f_end self))
                (BedLine c s e) = false /\
  ((e < f_end self + window_r /\
    let gene_overlap :=
      bedextract na (f_chrom self) (f_end self + 1)
                 (f_end self + window_r) in
    match gene_overlap !! 0%nat with
    | None => f_end self + 1 <= s
    | Some gene => f_end self <= s < start gene
    end) \/
   (e < f_start self - 1 /\
    let gene_overlap :=
      bedextract na (f_chrom self) (Z.max 0 (f_start self - window_l))
                 (f_start self - 1) in
    match gene_overlap !! (length gene_overlap - 1)%nat with
    | None => Z.max 0 (f_start self - window_l) <= s
    | Some gene => end_ gene <= s < f_start self
    end)).
Proof.
  intros Hgeo Hwr Hwl.
  unfold random_flanking_regions, random_flanking_loop.
  rewrite (flank_right_bounds self window_r Hwr).
  rewrite (flank_left_bounds self window_l) by lia.
  destruct (retry_loop _ _ _ _ _ _) as [[[r n] g1]| |] eqn:Hloop;
    try discriminate.
  cbn [run_loop]. intros H. injection H as -> ->.
  apply retry_loop_ret_inv in Hloop as (k & st_k & g_k & _ & _ & Hend).
  destruct Hend as [[st' Hb]|[_ (b & st' & _ & Hna)]]; [|discriminate].
  apply random_flanking_body_drawn in Hb; cbn [fst snd]; try lia.
  destruct Hb as (rs & Hr & Hov & Hcase). injection Hr as -> -> ->.
  split; [reflexivity|]. split; [reflexivity|]. split; [exact Hov|].
  cbn [fst snd] in Hcase. cbv zeta in *.
  destruct Hcase as [[Hlt Hm]|[Hlt Hm]]; [left | right];
    (split; [exact Hlt|]);
    destruct (_ !! _); lia.
Qed.

(** X6. For a feature with [1 <= start <= end] and windows of at least
    one base, an interval returned by [random_flanking_regions] has the
    size and chromosome of the feature and stays inside the windows:
    either it starts at or after the end of the feature and ends before
    [end + window_r], or it starts at or after
    [max(0, start - window_l)] and ends before [start - 1]. *)
Theorem random_flanking_regions_in_windows (self : Feature) (na : BedTool)
    (window_r window_l : Z) (g g' : rng) (c : string) (s e : Z) :
  1 <= f_start self <= f_end self ->
  1 <= window_r -> 1 <= window_l ->
  random_flanking_regions self na window_r window_l g
  = Ret (BedLine c s e, g') ->
  c = f_chrom self /\ e = s + f_size self /\
  ((f_end self <= s /\ e < f_end self + window_r) \/
   (Z.max 0 (f_start self - window_l) <= s /\ e < f_start self - 1)).
Proof.
  intros Hgeo Hwr Hwl H.
  apply random_flanking_regions_drawn in H as (Hc & He & _ & Hcase);
    try assumption.
  split; [exact Hc|]. split; [exact He|]. cbv zeta in Hcase.
  destruct Hcase as [[Hlt Hm]|[Hlt Hm]]; [left | right];
    (split; [|exact Hlt]).
  - destruct (_ !! _); lia.
  - destruct (bedextract na (f_chrom self)
                (Z.max 0 (f_start self - window_l)) (f_start self - 1)
              !! _) as [gene|] eqn:Hlast; [|exact Hm].
    apply list_elem_of_lookup_2, bedextract_overlaps in Hlast
      as (_ & _ & Hov).
    lia.
Qed.

Lemma random_flanking_regions_in_windows_witness :
  random_flanking_regions short_feature downstream_gene 10000 10000
                          draws_right_2
  = Ret (BedLine "chr1" 112 122, rng_tail (rng_tail draws_right_2)) /\
  ((110 <= 112 /\ 122 < 110 + 10000) \/
   (Z.max 0 (100 - 10000) <= 112 /\ 122 < 100 - 1)).
Proof.
  assert (H : random_flanking_regions short_feature downstream_gene
                10000 10000 draws_right_2
              = Ret (BedLine "chr1" 112 122,
                     rng_tail (rng_tail draws_right_2)))
    by reflexivity.
  split; [exact H|].
  apply (random_flanking_regions_in_windows short_feature downstream_gene
           10000 10000 draws_right_2 (rng_tail (rng_tail draws_right_2))
           "chr1" 112 122);
    [cbn; lia | lia | lia | exact H].
Defined.

(** X7. An upstream interval returned by [random_flanking_regions]
    overlaps no record of the not-allowed store, provided the last
    record that overlaps the left window is the one that ends last
    (as in a sorted file without nested records). *)
Theorem random_flanking_upstream_clear (self : Feature) (na : BedTool)
    (window_r window_l : Z) (g g' : rng) (c : string) (s e : Z) :
  1 <= f_start self <= f_end self ->
  0 < f_size self ->
  1 <= window_r -> 1 <= window_l ->
  (let gene_overlap :=
     bedextract na (f_chrom self) (Z.max 0 (f_start self - window_l))
                (f_start self - 1) in
   forall r last,
     r ∈ gene_overlap ->
     gene_overlap !! (length gene_overlap - 1)%nat = Some last ->
     end_ r <= end_ last) ->
  random_flanking_regions self na window_r window_l g
  = Ret (BedLine c s e, g') ->
  e <= f_start self ->
  run_bedextract (BedLine c s e) na = [].
Proof.
  intros Hgeo Hsize Hwr Hwl Hnest H Hup. cbv zeta in Hnest.
  apply random_flanking_regions_drawn in H as (-> & -> & _ & Hcase);
    try assumption.
  cbv zeta in Hcase.
  destruct Hcase as [[Hlt Hm]|[Hlt Hm]].
  { exfalso.
    destruct (bedextract na (f_chrom self) (f_end self + 1) _ !! 0%nat);
      lia. }
  cbn [run_bedextract].
  destruct (bedextract na (f_chrom self) s (s + f_size self))
    as [|r l] eqn:Hcand; [reflexivity|].
  exfalso.
  assert (Hr : r ∈ bedextract na (f_chrom self) s (s + f_size self))
    by (rewrite Hcand; apply elem_of_cons; left; reflexivity).
  apply bedextract_overlaps in Hr as (Hin & Hchr & Hov).
  set (lo := Z.max 0 (f_start self - window_l)) in *.
  destruct (bedextract na (f_chrom self) lo (f_start self - 1)
            !! _) as [last|] eqn:Hlast.
  - pose proof Hlast as Hl.
    apply list_elem_of_lookup_2, bedextract_overlaps in Hl
      as (_ & _ & Hovl).
    assert (Hrw : r ∈ bedextract na (f_chrom self) lo (f_start self - 1))
      by (apply bedextract_overlaps; repeat split; [exact Hin|exact Hchr|lia]).
    specialize (Hnest r last Hrw eq_refl). lia.
  - assert (Hrw : r ∈ bedextract na (f_chrom self) lo (f_start self - 1))
      by (apply bedextract_overlaps; repeat split; [exact Hin|exact Hchr|lia]).
    apply lookup_ge_None in Hlast.
    destruct (bedextract na (f_chrom self) lo (f_start self - 1));
      [apply elem_of_nil in Hrw; exact Hrw | cbn in Hlast; lia].
Qed.

(** A not-allowed record chr1:50-70, upstream of the feature
    chr1:100-110. *)
Definition upstream_gene : BedTool :=
  [mkInterval "chr1" 50 70 "gene" "+" 0].

Lemma random_flanking_upstream_clear_witness :
  random_flanking_regions short_feature upstream_gene 10000 10000 draws_one
  = Ret (BedLine "chr1" 71 81, rng_tail (rng_tail draws_one)) /\
  81 <= f_start short_feature /\
  run_bedextract (BedLine "chr1" 71 81) upstream_gene = [].
Proof.
  assert (H : random_flanking_regions short_feature upstream_gene
                10000 10000 draws_one
              = Ret (BedLine "chr1" 71 81, rng_tail (rng_tail draws_one)))
    by reflexivity.
  assert (Hup : 81 <= f_start short_feature) by (cbn; lia).
  split; [exact H|]. split; [exact Hup|].
  apply (random_flanking_upstream_clear short_feature upstream_gene
           10000 10000 draws_one (rng_tail (rng_tail draws_one))
           "chr1" 71 81);
    [cbn; lia | cbn; lia | lia | lia | | exact H | exact Hup].
  cbv zeta. intros r last Hr Hl.
  vm_compute in Hr. vm_compute in Hl.
  apply list_elem_of_singleton in Hr. subst r.
  injection Hl as <-. cbn. lia.
Defined.

(** ** Inputs on which the random flanking mode cannot fail *)

Lemma randrange_ret (a b : Z) (g : rng) :
  a < b -> exists r g', randrange a b g = Ret (r, g').
Proof.
  intros H. unfold randrange.
  replace (0 <? b - a) with true by (symmetry; apply Z.ltb_lt; lia).
  unfold bind, randbelow, ret. eauto.
Qed.

(** No record of the store on the chromosome of the feature touches the
    feature or the two bases next to it. *)
Definition clear_of_feature (self : Feature) (na : BedTool) : Prop :=
  forall r, r ∈ na -> chrom r = f_chrom self ->
            end_ r < f_start self \/ f_end self < start r.

Lemma random_flanking_body_ret (self : Feature) (na : BedTool)
    (right left : Z * Z) (locals : option (Z * Z)) (g : rng) :
  f_start self <= f_end self ->
  snd left < f_start self ->
  f_end self < fst right ->
  fst right < snd right ->
  fst left < snd left ->
  clear_of_feature self na ->
  exists x, random_flanking_body self na right left locals g = Ret x.
Proof.
  intros Hse Hleft Hright Hr Hl Hclear. unfold random_flanking_body.
  unfold bind at 1.
  destruct (choice2_cases right left g) as (c & g1 & -> & Hc).
  assert (Hfin : forall rs g2,
            exists x,
              (match Some (rs, rs + f_size self) with
               | None => throw UnboundLocalError
               | Some (random_start, random_end) =>
                   let random_string :=
                     BedLine (f_chrom self) random_start random_end in
                   let intersect :=
                     check_overlap
                       (BedLine (f_chrom self) (f_start self) (f_end self))
                       random_string in
                   if (random_end <? snd c) && negb intersect
                   then ret (inl random_string, Some (rs, rs + f_size self))
                   else ret (inr tt, Some (rs, rs + f_size self))
               end) g2 = Ret x).
  { intros rs g2. cbv zeta. destruct (_ && _); unfold ret; eauto. }
  cbn [run_bedextract]. unfold bind at 1.
  destruct Hc as [->| ->].
  - replace (snd right <? f_start self) with false
      by (symmetry; apply Z.ltb_ge; lia).
    replace (snd right >? f_end self) with true
      by (symmetry; apply Z.gtb_lt; lia).
    destruct (bedextract na (f_chrom self) (fst right) (snd right))
      as [|gene genes] eqn:Hov; cbn [nonempty].
    + unfold bind at 1.
      destruct (randrange_ret (fst right) (snd right) g1 Hr)
        as (rs & g2 & ->).
      apply Hfin.
    + unfold bind at 1. cbn [index lookup list_lookup ret].
      assert (Hg : gene ∈ bedextract na (f_chrom self) (fst right)
                                     (snd right))
        by (rewrite Hov; apply elem_of_cons; left; reflexivity).
      apply bedextract_overlaps in Hg as (Hin & Hchr & Hovl).
      destruct (Hclear gene Hin Hchr) as [Hbad|Hgood]; [lia|].
      unfold bind at 1.
      destruct (randrange_ret (f_end self)
                  (f_end self + (start gene - f_end self)) g1)
        as (rs & g2 & ->); [lia|].
      apply Hfin.
  - replace (snd left <? f_start self) with true
      by (symmetry; apply Z.ltb_lt; lia).
    destruct (bedextract na (f_chrom self) (fst left) (snd left))
      as [|gene genes] eqn:Hov; cbn [nonempty].
    + unfold bind at 1.
      destruct (randrange_ret (fst left) (snd left) g1 Hl)
        as (rs & g2 & ->).
      apply Hfin.
    + unfold bind at 1. unfold index.
      destruct ((gene :: genes) !! (length (gene :: genes) - 1)%nat)
        as [last_gene|] eqn:Hlast.
      2:{ apply lookup_ge_None in Hlast. cbn in Hlast. lia. }
      unfold ret at 1.
      assert (Hg : last_gene ∈ bedextract na (f_chrom self) (fst left)
                                          (snd left))
        by (rewrite Hov; eapply list_elem_of_lookup_2; exact Hlast).
      apply bedextract_overlaps in Hg as (Hin & Hchr & Hovl).
      destruct (Hclear last_gene Hin Hchr) as [Hgood|Hbad]; [|lia].
      unfold bind at 1.
      destruct (randrange_ret
                  (f_start self - (f_start self - end_ last_gene))
                  (f_start self) g1)
        as (rs & g2 & ->); [lia|].
      apply Hfin.
Qed.

Lemma random_flanking_regions_ret (self : Feature) (na : BedTool)
    (window_r window_l : Z) (g : rng) :
  2 <= f_start self <= f_end self ->
  2 <= window_r -> 2 <= window_l ->
  clear_of_feature self na ->
  exists r g',
    random_flanking_regions self na window_r window_l g = Ret (r, g').
Proof.
  intros Hgeo Hwr Hwl Hclear.
  unfold random_flanking_regions, random_flanking_loop.
  rewrite (flank_right_bounds self window_r) by lia.
  rewrite (flank_left_bounds self window_l) by lia.
  destruct (retry_loop_ret
              (random_flanking_body self na
                 (f_end self + 1, f_end self + window_r)
                 (Z.max 0 (f_start self - window_l), f_start self - 1))
              (fun _ => NA_line) 100 0 None g) as ([[r n] g'] & ->).
  - intros st g0. apply random_flanking_body_ret; cbn [fst snd];
      try lia; exact Hclear.
  - reflexivity.
  - unfold MAX_ATTEMPTS. lia.
  - cbn [run_loop]. eauto.
Qed.

(** X8. The random flanking mode raises nothing when the feature has
    [2 <= start <= end], both windows are of at least two bases, and
    every not-allowed record on the chromosome of the feature ends
    before its start or starts after its end: the sampler returns an
    interval or the sentinel, and the simulation a mean score or "NA". *)
Theorem random_flanking_total (self : Feature)
    (not_allowed_regions_bed query_bed : BedTool) (window_r window_l : Z)
    (g : rng) :
  2 <= f_start self <= f_end self ->
  2 <= window_r -> 2 <= window_l ->
  (forall r, r ∈ not_allowed_regions_bed -> chrom r = f_chrom self ->
             end_ r < f_start self \/ f_end self < start r) ->
  (exists r g',
     random_flanking_regions self not_allowed_regions_bed
                             window_r window_l g = Ret (r, g')) /\
  (exists v g',
     random_flanking_simulation self not_allowed_regions_bed query_bed
                                window_r window_l g = Ret (v, g') /\
     (v = NA \/ exists m, v = Num m)).
Proof.
  intros Hgeo Hwr Hwl Hclear. split.
  - apply random_flanking_regions_ret; assumption.
  - unfold random_flanking_simulation, random_flanking_sim_loop.
    change (retry_loop _ calculate_mean_score 100 0 tt g)
      with (retry_loop
              (sample_and_query
                 (random_flanking_regions self not_allowed_regions_bed
                                          window_r window_l) query_bed)
              calculate_mean_score 100 0 tt g).
    rewrite (sample_and_query_loop
               (random_flanking_regions self not_allowed_regions_bed
                                        window_r window_l)
               query_bed 100 100 0 g) by (reflexivity || lia).
    apply first_scored_sample_ret.
    intros g0. apply random_flanking_regions_ret; assumption.
Qed.

Lemma random_flanking_total_witness :
  (2 <= f_start short_feature <= f_end short_feature) /\
  exists v g',
    random_flanking_simulation short_feature upstream_gene flank_scores
                               10000 10000 draws_one = Ret (v, g') /\
    (v = NA \/ exists m, v = Num m).
Proof.
  assert (Hgeo : 2 <= f_start short_feature <= f_end short_feature)
    by (cbn; lia).
  split; [exact Hgeo|].
  apply (random_flanking_total short_feature upstream_gene flank_scores
           10000 10000 draws_one Hgeo); [lia | lia |].
  intros r Hin _. apply list_elem_of_singleton in Hin. subst r.
  left. cbn. lia.
Defined.

(** ** The score files found by [get_bed_files] *)

Lemma str_split_nonempty (sep : ascii) (s : string) : str_split sep s <> [].
Proof.
  pose proof (str_split_length sep s) as H.
  destruct (str_split sep s); [discriminate H | discriminate].
Qed.

Lemma str_split_app_sep (sep : ascii) (a b : string) :
  str_split sep (String.append a (String sep b))
  = str_split sep a ++ str_split sep b.
Proof.
  induction a as [|c a IH].
  - change (String.append EmptyString (String sep b)) with (String sep b).
    cbn [str_split]. rewrite Ascii.eqb_refl. reflexivity.
  - change (String.append (String c a) (String sep b))
      with (String c (String.append a (String sep b))).
    cbn [str_split]. rewrite IH.
    destruct (Ascii.eqb c sep); [reflexivity|].
    destruct (str_split sep a) as [|h t] eqn:Ha;
      [exfalso; exact (str_split_nonempty sep a Ha) | reflexivity].
Qed.

Lemma str_split_no_sep (sep : ascii) (s : string) :
  str_contains sep s = false -> str_split sep s = [s].
Proof.
  induction s as [|c s IH]; [reflexivity|].
  cbn [str_contains str_split].
  destruct (Ascii.eqb c sep); [discriminate|].
  intros H. rewrite (IH H). reflexivity.
Qed.

(** The path that [glob] gives for the file [base] of [dir_name]. *)
Definition path_in (dir_name base : string) : string :=
  String.append dir_name (String.append "/" base).

Lemma basename_path_in (dir_name base : string) :
  str_contains "/" base = false -> basename (path_in dir_name base) = base.
Proof.
  intros H. unfold basename, path_in.
  change (String.append "/" base) with (String "/" base).
  rewrite str_split_app_sep, (str_split_no_sep _ _ H).
  apply last_last.
Qed.

Lemma chrom_prefix_dot (c rest : string) :
  str_contains "." c = false ->
  chrom_prefix (String.append c (String "." rest)) = c.
Proof.
  intros H. unfold chrom_prefix.
  rewrite str_split_app_sep, (str_split_no_sep _ _ H). reflexivity.
Qed.

(** The last file name of the list whose text before the first dot is
    [c]. *)
Fixpoint last_file (c : string) (filenames : list string) : option string :=
  match filenames with
  | [] => None
  | f :: rest =>
      match last_file c rest with
      | Some f' => Some f'
      | None => if String.eqb (chrom_prefix f) c then Some f else None
      end
  end.

Lemma dict_files_lookup (dir_name : string) (filenames : list string)
    (d : gmap string string) (c : string) :
  fold_left (fun dict_files f => <[chrom_prefix f := path_in dir_name f]>
                                   dict_files) filenames d !! c
  = match last_file c filenames with
    | Some f => Some (path_in dir_name f)
    | None => d !! c
    end.
Proof.
  revert d. induction filenames as [|f rest IH]; intros d; [reflexivity|].
  cbn [fold_left last_file]. rewrite IH.
  destruct (last_file c rest) as [f'|]; [reflexivity|].
  rewrite lookup_insert.
  destruct (String.eqb_spec (chrom_prefix f) c) as [E|E];
    case_decide; congruence.
Qed.

(** X11. [get_bed_files] raises [IOError] exactly when the directory
    does not exist. Otherwise the dictionary maps a chromosome [c] to
    the path, as [glob] gave it, of the last globbed file whose name
    before its first dot is [c], and has no entry for a chromosome
    without such a file; a file named [c.rest], with no dot in [c], is
    filed under [c]. *)
Theorem get_bed_files_lookup (dir_name : string) (bases : list string) :
  (forall b, b ∈ bases -> str_contains "/" b = false) ->
  get_bed_files false (List.map (path_in dir_name) bases) dir_name
  = Failed DirectoryIOError /\
  (exists d,
     get_bed_files true (List.map (path_in dir_name) bases) dir_name
     = Built d /\
     forall c, d !! c = path_in dir_name <$> last_file c bases) /\
  (forall c rest, str_contains "." c = false ->
                  chrom_prefix (String.append c (String "." rest)) = c).
Proof.
  intros Hbases. split; [reflexivity|]. split; [|exact chrom_prefix_dot].
  eexists. split; [reflexivity|]. intros c.
  rewrite map_map.
  replace (List.map (fun b => basename (path_in dir_name b)) bases)
    with bases.
  - unfold path_in at 1.
    rewrite (dict_files_lookup dir_name bases ∅ c), lookup_empty.
    destruct (last_file c bases); reflexivity.
  - clear c. induction bases as [|b rest IH]; [reflexivity|].
    cbn [List.map]. rewrite basename_path_in.
    + f_equal. apply IH. intros b' Hb'. apply Hbases.
      apply elem_of_cons. right. exact Hb'.
    + apply Hbases. apply elem_of_cons. left. reflexivity.
Qed.

Definition score_files : list string :=
  ["chrY.phyloP46way.wigFix.bed"; "chr1.phyloP46way.wigFix.bed";
   "chrY.other.bed"].

Lemma get_bed_files_lookup_witness :
  exists d,
    get_bed_files true (List.map (path_in "scores") score_files) "scores"
    = Built d /\
    d !! "chrY" = Some "scores/chrY.other.bed" /\
    d !! "chr1" = Some "scores/chr1.phyloP46way.wigFix.bed" /\
    d !! "chr2" = None.
Proof.
  assert (Hb : forall b, b ∈ score_files -> str_contains "/" b = false).
  { intros b Hin. unfold score_files in Hin.
    repeat (apply elem_of_cons in Hin as [->|Hin]; [reflexivity|]).
    apply elem_of_nil in Hin. contradiction. }
  destruct (proj1 (proj2 (get_bed_files_lookup "scores" score_files Hb)))
    as (d & Hd & Hlk).
  exists d. split; [exact Hd|].
  rewrite !Hlk. repeat split; reflexivity.
Defined.

(** ** The drivers of [simulation_features.py] *)

Lemma flanking_simulation_ret (self : Feature)
    (not_allowed_regions_bed query_bed : BedTool) :
  exists v, flanking_simulation self not_allowed_regions_bed query_bed = Ret v /\
            (v = NA \/ exists m, v = Num m).
Proof.
  unfold flanking_simulation.
  destruct (flanking_regions self 1 1) as [right left].
  assert (Hcms : forall q, calculate_mean_score q = NA \/
                           exists m, calculate_mean_score q = Num m).
  { intros q. unfold calculate_mean_score. destruct (negb _); eauto. }
  destruct (nonempty (run_bedextract right not_allowed_regions_bed));
    destruct (nonempty (run_bedextract left not_allowed_regions_bed));
    cbn [andb negb]; eauto.
  destruct (Hcms (run_bedextract left query_bed)) as [->|[l ->]];
    destruct (Hcms (run_bedextract right query_bed)) as [->|[r ->]];
    eauto.
Qed.

(** The line of a feature in the output of a driver that printed
    [number] scores for each feature. *)
Definition line_of (bed_files : gmap string string) (number : nat)
    (f : Interval) (line : out_line) : Prop :=
  match bed_files !! chrom f with
  | None => line = MissingBed (chrom f)
  | Some _ =>
      exists scores, line = ScoreLine (name f) scores /\
                     length scores = number
  end.

(** X12. The flanking driver never aborts: whatever the features, the
    files and the table of score files, it prints exactly one line for
    each feature, in order, the message for a chromosome without score
    file or the name with one score, which is a mean or "NA". *)
Theorem call_flanking_simulation_complete (disk : string -> BedTool)
    (features : BedTool) (bed_files : gmap string string)
    (not_allowed_regions_bed : string) :
  exists out,
    call_flanking_simulation disk features bed_files not_allowed_regions_bed
    = (out, Ret tt) /\
    Forall2 (line_of bed_files 1) features out /\
    forall name scores,
      ScoreLine name scores ∈ out ->
      exists v, scores = [v] /\ (v = NA \/ exists m, v = Num m).
Proof.
  induction features as [|f rest IH].
  - exists []. split; [reflexivity|]. split; [constructor|].
    intros n s H. apply elem_of_nil in H. contradiction.
  - destruct IH as (out & Heq & Hlines & Hscores).
    cbn [call_flanking_simulation]. change (f_chrom (Feature_init f))
      with (chrom f).
    destruct (bed_files !! chrom f) as [query_bed|] eqn:Hlk.
    + destruct (flanking_simulation_ret (Feature_init f)
                  (disk not_allowed_regions_bed) (disk query_bed))
        as (v & -> & Hv).
      rewrite Heq. eexists. split; [reflexivity|]. split.
      * constructor; [|exact Hlines]. unfold line_of. rewrite Hlk.
        exists [v]. split; reflexivity.
      * intros n s H. apply elem_of_cons in H as [H|H].
        -- injection H as -> ->. eauto.
        -- eapply Hscores. exact H.
    + rewrite Heq. eexists. split; [reflexivity|]. split.
      * constructor; [|exact Hlines]. unfold line_of. rewrite Hlk.
        reflexivity.
      * intros n s H. apply elem_of_cons in H as [H|H]; [discriminate|].
        eapply Hscores. exact H.
Qed.

Section DriverFacts.
Variable simulation : Feature -> string -> M score_value.
Variable bed_files : gmap string string.
Variable number : Z.

Local Abbreviation run := (call_random_simulation simulation).

Lemma repeat_simulation_length (sim : M score_value) (n : nat) (g g' : rng)
    (scores : list score_value) :
  repeat_simulation sim n g = Ret (scores, g') -> length scores = n.
Proof.
  revert g g' scores. induction n as [|n IH]; intros g g' scores H.
  - injection H as <- _. reflexivity.
  - cbn [repeat_simulation] in H.
    apply bind_ret_inv in H as (v & g1 & _ & H).
    apply bind_ret_inv in H as (rest & g2 & Hrest & H).
    injection H as <- _. cbn [length]. f_equal. eapply IH. exact Hrest.
Qed.

Lemma repeat_simulation_in_fuel (sim : M score_value) (n : nat) (g : rng) :
  (forall g, sim g <> OutOfFuel) ->
  repeat_simulation sim n g <> OutOfFuel.
Proof.
  intros Hs. revert g. induction n as [|n IH]; intros g; [discriminate|].
  cbn [repeat_simulation]. apply bind_in_fuel; [apply Hs|].
  intros v g1. apply bind_in_fuel; [apply IH|]. discriminate.
Qed.

(** The lines printed are those of the first features of the batch; all
    of them when the run ends normally, fewer when it is aborted. *)
Lemma call_random_simulation_lines (features : BedTool) (g : rng) :
  (forall f q g, simulation f q g <> OutOfFuel) ->
  exists out r,
    run features bed_files number g = (out, r) /\
    r <> OutOfFuel /\
    Forall2 (line_of bed_files (Z.to_nat number))
            (take (length out) features) out /\
    (forall g', r = Ret g' -> length out = length features) /\
    (forall e, r = Raise e -> (length out < length features)%nat).
Proof.
  intros Hsim. revert g. induction features as [|f rest IH]; intros g.
  - exists [], (Ret g). split; [reflexivity|]. split; [discriminate|].
    split; [constructor|]. split; [reflexivity | discriminate].
  - cbn [call_random_simulation]. change (f_chrom (Feature_init f))
      with (chrom f).
    destruct (bed_files !! chrom f) as [query_bed|] eqn:Hlk.
    + pose proof (repeat_simulation_in_fuel
                    (simulation (Feature_init f) query_bed)
                    (Z.to_nat number) g (Hsim _ _)) as Hrep.
      destruct (repeat_simulation _ _ g) as [[scores g1]|e|] eqn:Hr;
        [| |congruence].
      * destruct (IH g1) as (out & r & -> & Hr1 & Hl & Hret & Hraise).
        eexists _, r. split; [reflexivity|]. split; [exact Hr1|].
        cbn [length take]. split; [|split].
        -- constructor; [|exact Hl]. unfold line_of. rewrite Hlk.
           exists scores. split; [reflexivity|].
           eapply repeat_simulation_length. exact Hr.
        -- intros g' E. f_equal. eapply Hret. exact E.
        -- intros e E. apply Hraise in E. lia.
      * exists [], (Raise e). split; [reflexivity|].
        split; [discriminate|]. split; [constructor|].
        split; [discriminate | intros; cbn; lia].
    + destruct (IH g) as (out & r & -> & Hr1 & Hl & Hret & Hraise).
      eexists _, r. split; [reflexivity|]. split; [exact Hr1|].
      cbn [length take]. split; [|split].
      * constructor; [|exact Hl]. unfold line_of. rewrite Hlk. reflexivity.
      * intros g' E. f_equal. eapply Hret. exact E.
      * intros e E. apply Hraise in E. lia.
Qed.

(** A batch in two parts: the second part runs after the first one, on
    the generator it leaves, unless the first part is aborted. *)
Lemma call_random_simulation_app (pre post : BedTool) (g : rng) :
  run (pre ++ post) bed_files number g
  = match run pre bed_files number g with
    | (out1, Ret g1) =>
        let '(out2, r2) := run post bed_files number g1 in
        (out1 ++ out2, r2)
    | (out1, r1) => (out1, r1)
    end.
Proof.
  revert g. induction pre as [|f rest IH]; intros g.
  - cbn. destruct (run post bed_files number g). reflexivity.
  - cbn [app call_random_simulation].
    destruct (bed_files !! f_chrom (Feature_init f)) as [query_bed|].
    + destruct (repeat_simulation _ _ g) as [[scores g1]|e|];
        try reflexivity.
      rewrite IH.
      destruct (run rest bed_files number g1) as [out1 [g2|e|]];
        try reflexivity.
      destruct (run post bed_files number g2). reflexivity.
    + rewrite IH.
      destruct (run rest bed_files number g) as [out1 [g2|e|]];
        try reflexivity.
      destruct (run post bed_files number g2). reflexivity.
Qed.

(** When no call of the simulation can raise, the batch ends normally. *)
Lemma call_random_simulation_ret (features : BedTool) (g : rng) :
  (forall f q g, f ∈ features ->
     exists v g', simulation (Feature_init f) q g = Ret (v, g')) ->
  exists out g', run features bed_files number g = (out, Ret g').
Proof.
  intros Hsim. revert g. induction features as [|f rest IH]; intros g.
  - eexists _, _. reflexivity.
  - assert (Hrest : forall f0 q g0, f0 ∈ rest ->
              exists v g', simulation (Feature_init f0) q g0 = Ret (v, g'))
      by (intros f0 q g0 H0; apply Hsim, elem_of_cons; right; exact H0).
    cbn [call_random_simulation].
    destruct (bed_files !! f_chrom (Feature_init f)) as [query_bed|].
    + assert (Hrep : forall n g0, exists scores g1,
                repeat_simulation (simulation (Feature_init f) query_bed)
                                  n g0 = Ret (scores, g1)).
      { induction n as [|n IHn]; intros g0; [eexists _, _; reflexivity|].
        cbn [repeat_simulation]. unfold bind.
        destruct (Hsim f query_bed g0) as (v & g1 & ->);
          [apply elem_of_cons; left; reflexivity|].
        destruct (IHn g1) as (scores & g2 & ->).
        eexists _, _. reflexivity. }
      destruct (Hrep (Z.to_nat number) g) as (scores & g1 & ->).
      destruct (IH Hrest g1) as (out & g' & ->).
      eexists _, _. reflexivity.
    + destruct (IH Hrest g) as (out & g' & ->).
      eexists _, _. reflexivity.
Qed.

End DriverFacts.

Lemma random_intragenic_simulation_in_fuel (self : Feature)
    (allowed_regions_dict : gmap (string * string * string) (list (Z * Z)))
    (query_bed : BedTool) (g : rng) :
  random_intragenic_simulation self allowed_regions_dict query_bed g
  <> OutOfFuel.
Proof.
  unfold random_intragenic_simulation.
  destruct (str_contains "_" (f_name self)); [|discriminate].
  apply bind_in_fuel; [apply index_in_fuel|]. intros gene g1.
  apply bind_in_fuel; [apply index_in_fuel|]. intros transcript g2.
  destruct (allowed_regions_dict !! (gene, transcript, f_chrom self))
    as [allowed|]; [|discriminate].
  change (run_loop (random_intragenic_loop self allowed query_bed 100 g2))
    with (run_loop (retry_loop
                      (sample_and_query (random_regions self allowed)
                                        query_bed)
                      calculate_mean_score 100 0 tt g2)).
  rewrite (sample_and_query_loop (random_regions self allowed) query_bed
                                 100 100 0 g2) by (reflexivity || lia).
  apply first_scored_sample_in_fuel. intros g0.
  apply random_regions_in_fuel.
Qed.

Lemma random_flanking_simulation_in_fuel (self : Feature)
    (not_allowed_regions_bed query_bed : BedTool) (window_r window_l : Z)
    (g : rng) :
  random_flanking_simulation self not_allowed_regions_bed query_bed
                             window_r window_l g <> OutOfFuel.
Proof.
  unfold random_flanking_simulation, random_flanking_sim_loop.
  change (retry_loop _ calculate_mean_score 100 0 tt g)
    with (retry_loop
            (sample_and_query
               (random_flanking_regions self not_allowed_regions_bed
                                        window_r window_l) query_bed)
            calculate_mean_score 100 0 tt g).
  rewrite (sample_and_query_loop
             (random_flanking_regions self not_allowed_regions_bed
                                      window_r window_l)
             query_bed 100 100 0 g) by (reflexivity || lia).
  apply first_scored_sample_in_fuel. intros g0.
  apply random_flanking_regions_in_fuel.
Qed.

Definition two_features : BedTool :=
  [mkInterval "chr1" 100 110 "mir_G_T" "+" 0;
   mkInterval "chr2" 500 520 "mir123" "+" 0].

Definition chr2_files : gmap string string :=
  {[ "chr2" := "scores/chr2.phyloP46way.wigFix.bed" ]}.

Definition one_disk : string -> BedTool := fun _ => flank_scores.

(** What a run of a random driver leaves on standard output: the lines
    of the first features of the batch, each with [number] scores; all
    the features when the run ends normally, fewer when an exception
    aborts it. *)
Definition prints_a_prefix (features : BedTool)
    (bed_files : gmap string string) (number : Z)
    (run : list out_line * outcome rng) : Prop :=
  exists out r,
    run = (out, r) /\
    r <> OutOfFuel /\
    Forall2 (line_of bed_files (Z.to_nat number))
            (take (length out) features) out /\
    (forall g', r = Ret g' -> length out = length features) /\
    (forall e, r = Raise e -> (length out < length features)%nat).

(** X13. Each of the two random drivers (the intragenic one on a
    dictionary built by [get_regions]) prints, in order, one line for
    each feature it reaches: the message for a chromosome without score
    file, or the name followed by exactly [max(number, 0)] scores. A run
    that ends normally has printed a line for every feature; a run that
    an exception aborts has printed the lines of the features before
    the failing one only. *)
Theorem random_drivers_print_a_prefix (disk : string -> BedTool)
    (features : BedTool) (bed_files : gmap string string) (number : Z)
    (g : rng) :
  (forall regions allowed_regions_dict,
     get_regions regions = Built allowed_regions_dict ->
     prints_a_prefix features bed_files number
       (call_random_intragenic_simulation disk features bed_files
                                          allowed_regions_dict number g)) /\
  (forall not_allowed_regions_bed window_r window_l,
     prints_a_prefix features bed_files number
       (call_random_flanking_simulation disk features bed_files
          not_allowed_regions_bed number window_r window_l g)).
Proof.
  split.
  - intros regions d _. apply call_random_simulation_lines.
    intros f q g0. apply random_intragenic_simulation_in_fuel.
  - intros na wr wl. apply call_random_simulation_lines.
    intros f q g0. apply random_flanking_simulation_in_fuel.
Qed.

Lemma random_drivers_print_a_prefix_witness :
  get_regions [] = Built ∅ /\
  prints_a_prefix two_features chr2_files 2
    (call_random_intragenic_simulation one_disk two_features chr2_files
                                       ∅ 2 draws_zero).
Proof.
  assert (H : get_regions [] = Built ∅) by reflexivity.
  split; [exact H|].
  exact (proj1 (random_drivers_print_a_prefix one_disk two_features
                  chr2_files 2 draws_zero) [] ∅ H).
Defined.

(** X14. A batch in two parts: a random driver (the intragenic one on a
    dictionary built by [get_regions]) run on [pre ++ post]
    prints what it prints on [pre] and then, from the generator that
    [pre] leaves, what it prints on [post]; when [pre] is aborted
    nothing of [post] is run. *)
Theorem random_drivers_batch_app (disk : string -> BedTool)
    (pre post : BedTool) (bed_files : gmap string string) (number : Z)
    (g : rng) :
  (forall regions d,
     get_regions regions = Built d ->
     call_random_intragenic_simulation disk (pre ++ post) bed_files d
                                       number g
     = match call_random_intragenic_simulation disk pre bed_files d
                                               number g with
       | (out1, Ret g1) =>
           let '(out2, r2) :=
             call_random_intragenic_simulation disk post bed_files d
                                               number g1 in
           (out1 ++ out2, r2)
       | (out1, r1) => (out1, r1)
       end) /\
  (forall na window_r window_l,
     call_random_flanking_simulation disk (pre ++ post) bed_files na
                                     number window_r window_l g
     = match call_random_flanking_simulation disk pre bed_files na
                                             number window_r window_l g with
       | (out1, Ret g1) =>
           let '(out2, r2) :=
             call_random_flanking_simulation disk post bed_files na
                                             number window_r window_l g1 in
           (out1 ++ out2, r2)
       | (out1, r1) => (out1, r1)
       end).
Proof.
  split.
  - intros regions d _. apply call_random_simulation_app.
  - intros na wr wl. apply call_random_simulation_app.
Qed.

Lemma random_drivers_batch_app_witness :
  get_regions [] = Built ∅ /\
  call_random_intragenic_simulation one_disk (two_features ++ two_features)
                                    chr2_files ∅ 1 draws_zero
  = match call_random_intragenic_simulation one_disk two_features
                                            chr2_files ∅ 1 draws_zero with
    | (out1, Ret g1) =>
        let '(out2, r2) :=
          call_random_intragenic_simulation one_disk two_features
                                            chr2_files ∅ 1 g1 in
        (out1 ++ out2, r2)
    | (out1, r1) => (out1, r1)
    end.
Proof.
  assert (H : get_regions [] = Built ∅) by reflexivity.
  split; [exact H|].
  exact (proj1 (random_drivers_batch_app one_disk two_features two_features
                  chr2_files 1 draws_zero) [] ∅ H).
Defined.

(** X15. One feature name with exactly one underscore aborts the whole
    intragenic batch, run on a dictionary built by [get_regions]: when a score file exists for its chromosome and
    at least one repetition is asked, the run ends with [IndexError]
    after the lines of the features before it, and no later feature is
    processed. *)
Theorem one_underscore_aborts_batch (disk : string -> BedTool)
    (pre post regions : BedTool) (f : Interval)
    (bed_files : gmap string string)
    (d : gmap region_key region_value) (number : Z) (g g1 : rng)
    (out1 : list out_line) :
  get_regions regions = Built d ->
  str_count "_" (name f) = 1%nat ->
  is_Some (bed_files !! chrom f) ->
  1 <= number ->
  call_random_intragenic_simulation disk pre bed_files d number g
  = (out1, Ret g1) ->
  call_random_intragenic_simulation disk (pre ++ f :: post) bed_files d
                                    number g
  = (out1, Raise IndexError).
Proof.
  intros _ Hname [query_bed Hlk] Hnum Hpre.
  unfold call_random_intragenic_simulation in *.
  rewrite call_random_simulation_app, Hpre.
  cbn [call_random_simulation].
  change (f_chrom (Feature_init f)) with (chrom f). rewrite Hlk.
  destruct (Z.to_nat number) as [|n] eqn:Hn; [lia|].
  cbn [repeat_simulation]. unfold bind at 1.
  assert (Hraise : random_intragenic_simulation (Feature_init f)
                     (tuple_index d) (disk query_bed) g1
                   = Raise IndexError).
  { unfold random_intragenic_simulation.
    change (f_name (Feature_init f)) with (name f).
    rewrite str_contains_count, Hname. cbn [Nat.eqb negb].
    pose proof (str_split_length "_" (name f)) as Hlen.
    rewrite Hname in Hlen.
    destruct (str_split "_" (name f)) as [|a [|b [|c l]]];
      try discriminate Hlen.
    reflexivity. }
  rewrite Hraise. rewrite app_nil_r. reflexivity.
Qed.

Lemma one_underscore_aborts_batch_witness :
  call_random_intragenic_simulation one_disk
    [mkInterval "chr2" 500 520 "mir123" "+" 0] chr2_files ∅ 2 draws_zero
  = ([ScoreLine "mir123" [NameError1; NameError1]], Ret draws_zero) /\
  call_random_intragenic_simulation one_disk
    ([mkInterval "chr2" 500 520 "mir123" "+" 0]
       ++ mkInterval "chr2" 500 520 "mir_ENSG1" "+" 0
       :: [mkInterval "chr2" 600 620 "mir124" "+" 0])
    chr2_files ∅ 2 draws_zero
  = ([ScoreLine "mir123" [NameError1; NameError1]], Raise IndexError).
Proof.
  assert (Hpre : call_random_intragenic_simulation one_disk
                   [mkInterval "chr2" 500 520 "mir123" "+" 0] chr2_files ∅ 2
                   draws_zero
                 = ([ScoreLine "mir123" [NameError1; NameError1]],
                    Ret draws_zero))
    by (vm_compute; reflexivity).
  split; [exact Hpre|].
  apply (one_underscore_aborts_batch one_disk
           [mkInterval "chr2" 500 520 "mir123" "+" 0]
           [mkInterval "chr2" 600 620 "mir124" "+" 0] []
           (mkInterval "chr2" 500 520 "mir_ENSG1" "+" 0)
           chr2_files ∅ 2 draws_zero draws_zero).
  - reflexivity.
  - reflexivity.
  - exists "scores/chr2.phyloP46way.wigFix.bed". vm_compute. reflexivity.
  - lia.
  - exact Hpre.
Defined.

Lemma call_random_simulation_complete
    (simulation : Feature -> string -> M score_value)
    (bed_files : gmap string string) (number : Z) (features : BedTool)
    (g : rng) :
  (forall f q g, simulation f q g <> OutOfFuel) ->
  (forall f q g, f ∈ features ->
     exists v g', simulation (Feature_init f) q g = Ret (v, g')) ->
  exists out g',
    call_random_simulation simulation features bed_files number g
    = (out, Ret g') /\
    Forall2 (line_of bed_files (Z.to_nat number)) features out.
Proof.
  intros Hfuel Hret.
  destruct (call_random_simulation_ret simulation bed_files number
              features g Hret) as (out & g' & Heq).
  destruct (call_random_simulation_lines simulation bed_files number
              features g Hfuel) as (out' & r & Heq' & _ & Hl & Hlen & _).
  rewrite Heq in Heq'. injection Heq' as <- <-.
  exists out, g'. split; [exact Heq|].
  rewrite (Hlen g' eq_refl) in Hl.
  rewrite firstn_all in Hl. exact Hl.
Qed.

(** X16. The intragenic batch ends normally, with one line for each
    feature, when the dictionary comes from [get_regions] on a file
    whose records all have [start < end] and no feature name has
    exactly one underscore. *)
Theorem intragenic_batch_completes (disk : string -> BedTool)
    (features regions : BedTool) (bed_files : gmap string string)
    (number : Z) (g : rng) :
  (forall r, r ∈ regions -> start r < end_ r) ->
  (forall f, f ∈ features -> str_count "_" (name f) <> 1%nat) ->
  exists d out g',
    get_regions regions = Built d /\
    call_random_intragenic_simulation disk features bed_files d number g
    = (out, Ret g') /\
    Forall2 (line_of bed_files (Z.to_nat number)) features out.
Proof.
  intros Hreg Hnames.
  destruct (get_regions_built regions) as (d & Heq & Hd & Hheld & _).
  exists d.
  destruct (call_random_simulation_complete
              (fun feature query_bed =>
                 random_intragenic_simulation feature (tuple_index d)
                                              (disk query_bed))
              bed_files number features g) as (out & g' & Hrun & Hl).
  - intros f q g0. apply random_intragenic_simulation_in_fuel.
  - intros f q g0 Hf. apply random_intragenic_simulation_ret.
    + eapply get_regions_usable; eassumption.
    + apply Hnames. exact Hf.
  - exists out, g'. split; [exact Heq|]. split; [exact Hrun | exact Hl].
Qed.

(** X17. The random flanking batch ends normally, with one line for
    each feature, when both windows are of at least two bases, every
    feature has [2 <= start <= end], and no record of the not-allowed
    file touches a feature on its chromosome. *)
Theorem flanking_batch_completes (disk : string -> BedTool)
    (features : BedTool) (bed_files : gmap string string)
    (not_allowed_regions_bed : string) (number window_r window_l : Z)
    (g : rng) :
  2 <= window_r -> 2 <= window_l ->
  (forall f, f ∈ features ->
     2 <= start f <= end_ f /\
     forall r, r ∈ disk not_allowed_regions_bed -> chrom r = chrom f ->
               end_ r < start f \/ end_ f < start r) ->
  exists out g',
    call_random_flanking_simulation disk features bed_files
      not_allowed_regions_bed number window_r window_l g
    = (out, Ret g') /\
    Forall2 (line_of bed_files (Z.to_nat number)) features out.
Proof.
  intros Hwr Hwl Hfeat.
  apply call_random_simulation_complete.
  - intros f q g0. apply random_flanking_simulation_in_fuel.
  - intros f q g0 Hf. destruct (Hfeat f Hf) as [Hgeo Hclear].
    unfold random_flanking_simulation, random_flanking_sim_loop.
    change (retry_loop _ calculate_mean_score 100 0 tt g0)
      with (retry_loop
              (sample_and_query
                 (random_flanking_regions (Feature_init f)
                    (disk not_allowed_regions_bed) window_r window_l)
                 (disk q))
              calculate_mean_score 100 0 tt g0).
    rewrite (sample_and_query_loop
               (random_flanking_regions (Feature_init f)
                  (disk not_allowed_regions_bed) window_r window_l)
               (disk q) 100 100 0 g0) by (reflexivity || lia).
    destruct (first_scored_sample_ret
                (random_flanking_regions (Feature_init f)
                   (disk not_allowed_regions_bed) window_r window_l)
                (disk q) 100 g0) as (v & g' & Heq & _).
    + intros g1. apply random_flanking_regions_ret; assumption.
    + eauto.
Qed.

Lemma intragenic_batch_completes_witness :
  exists d out g',
    get_regions get_regions_example = Built d /\
    call_random_intragenic_simulation one_disk two_features chr2_files d 1
                                      draws_zero
    = (out, Ret g') /\
    Forall2 (line_of chr2_files (Z.to_nat 1)) two_features out.
Proof.
  apply (intragenic_batch_completes one_disk two_features
           get_regions_example chr2_files 1 draws_zero).
  - intros r Hin. unfold get_regions_example in Hin.
    repeat (apply elem_of_cons in Hin as [->|Hin]; [cbn; lia|]).
    apply elem_of_nil in Hin. contradiction.
  - intros f Hin. unfold two_features in Hin.
    repeat (apply elem_of_cons in Hin as [->|Hin]; [cbn; lia|]).
    apply elem_of_nil in Hin. contradiction.
Defined.

Lemma flanking_batch_completes_witness :
  exists out g',
    call_random_flanking_simulation one_disk two_features chr2_files
      "genes.bed" 3 10000 10000 draws_one
    = (out, Ret g') /\
    Forall2 (line_of chr2_files (Z.to_nat 3)) two_features out.
Proof.
  apply (flanking_batch_completes one_disk two_features chr2_files
           "genes.bed" 3 10000 10000 draws_one); [lia | lia |].
  intros f Hin. unfold two_features in Hin.
  apply elem_of_cons in Hin as [->|Hin].
  - split; [cbn; lia|]. intros r Hr _.
    apply list_elem_of_singleton in Hr. subst r. right. cbn. lia.
  - apply list_elem_of_singleton in Hin. subst f.
    split; [cbn; lia|]. intros r Hr Hc.
    apply list_elem_of_singleton in Hr. subst r. discriminate Hc.
Defined.

(** ** Empty and unassigned windows of the random flanking sampler *)

Lemma bedextract_empty_window (bed_file : BedTool) (c : string) (s e : Z) :
  e <= s -> bedextract bed_file c s e = [].
Proof.
  intros H. unfold bedextract.
  induction bed_file as [|r rest IH]; [reflexivity|].
  cbn [List.filter]. rewrite IH. unfold overlaps.
  replace (Z.max (start r) s <? Z.min (end_ r) e) with false
    by (symmetry; apply Z.ltb_ge; lia).
  rewrite andb_false_r. reflexivity.
Qed.

Lemma choice2_draw {A} (a b : A) (g : rng) :
  choice [a; b] g
  = Ret (if Z.of_N (g 0%nat) mod 2 =? 0 then a else b, rng_tail g).
Proof.
  unfold choice, bind, randbelow. cbn [length].
  change (Z.of_nat 2) with 2.
  assert (H : 0 <= Z.of_N (g 0%nat) mod 2 < 2)
    by (apply Z.mod_pos_bound; lia).
  destruct (Z.eq_dec (Z.of_N (g 0%nat) mod 2) 0) as [E|E].
  - rewrite E. reflexivity.
  - assert (E1 : Z.of_N (g 0%nat) mod 2 = 1) by lia.
    rewrite E1. reflexivity.
Qed.

(** X18. An empty window makes [random_flanking_regions] fail with
    [ValueError] as soon as it is chosen: the left window of a feature
    that starts at base 1 is [[0, 0)], and the right window for
    [window_r = 1] is [[end + 1, end + 1)]; [randrange] has nothing to
    draw from. *)
Theorem empty_window_ValueError (self : Feature) (na : BedTool)
    (window_r window_l : Z) (g : rng) :
  (f_start self = 1 -> 1 <= window_l ->
   Z.of_N (g 0%nat) mod 2 = 1 ->
   random_flanking_regions self na window_r window_l g
   = Raise ValueError) /\
  (window_r = 1 ->
   Z.of_N (g 0%nat) mod 2 = 0 ->
   random_flanking_regions self na window_r window_l g
   = Raise ValueError).
Proof.
  split.
  - intros Hs Hwl Hodd.
    unfold random_flanking_regions, random_flanking_loop.
    cbn [retry_loop]. unfold random_flanking_body at 1.
    unfold bind at 1. rewrite choice2_draw, Hodd. cbn [Z.eqb].
    assert (Hleft : flank_left self window_l = (0, 0)).
    { unfold flank_left, sorted2. rewrite Hs.
      destruct (window_l >=? 1) eqn:E; [reflexivity|].
      destruct (Z.geb_spec window_l 1); [discriminate | lia]. }
    rewrite Hleft. cbn [fst snd run_bedextract].
    rewrite bedextract_empty_window by lia.
    cbn [nonempty]. unfold bind at 1. unfold bind at 1.
    rewrite randrange_empty by lia. reflexivity.
  - intros -> Heven.
    unfold random_flanking_regions, random_flanking_loop.
    cbn [retry_loop]. unfold random_flanking_body at 1.
    unfold bind at 1. rewrite choice2_draw, Heven. cbn [Z.eqb].
    assert (Hright : flank_right self 1 = (f_end self + 1, f_end self + 1)).
    { unfold flank_right, sorted2. f_equal; lia. }
    rewrite Hright. cbn [fst snd run_bedextract].
    rewrite bedextract_empty_window by lia.
    cbn [nonempty]. unfold bind at 1. unfold bind at 1.
    rewrite randrange_empty by lia. reflexivity.
Qed.

Lemma empty_window_ValueError_witness :
  f_start first_base_feature = 1 /\
  Z.of_N (draws_one 0%nat) mod 2 = 1 /\
  random_flanking_regions first_base_feature upstream_gene 10000 10000
                          draws_one
  = Raise ValueError.
Proof.
  assert (Hs : f_start first_base_feature = 1) by reflexivity.
  assert (Hodd : Z.of_N (draws_one 0%nat) mod 2 = 1) by reflexivity.
  split; [exact Hs|]. split; [exact Hodd|].
  apply (proj1 (empty_window_ValueError first_base_feature upstream_gene
                  10000 10000 draws_one) Hs); [lia | exact Hodd].
Defined.

(** X19. With [window_l = 0] the left window is [[start - 1, start)],
    whose upper bound is neither before the start of the feature nor
    after its end: when it is chosen first and overlaps a not-allowed
    record, no branch assigns [random_start], and the call fails with
    [UnboundLocalError]. *)
Theorem zero_window_UnboundLocalError (self : Feature) (na : BedTool)
    (window_r : Z) (g : rng) :
  1 <= f_start self <= f_end self ->
  bedextract na (f_chrom self) (f_start self - 1) (f_start self) <> [] ->
  Z.of_N (g 0%nat) mod 2 = 1 ->
  random_flanking_regions self na window_r 0 g = Raise UnboundLocalError.
Proof.
  intros Hgeo Hov Hodd.
  unfold random_flanking_regions, random_flanking_loop.
  cbn [retry_loop]. unfold random_flanking_body at 1.
  unfold bind at 1. rewrite choice2_draw, Hodd. cbn [Z.eqb].
  assert (Hleft : flank_left self 0 = (f_start self - 1, f_start self)).
  { unfold flank_left, sorted2.
    destruct (0 >=? f_start self) eqn:E.
    - apply Z.geb_le in E. lia.
    - f_equal; lia. }
  rewrite Hleft. cbn [fst snd run_bedextract].
  destruct (bedextract na (f_chrom self) (f_start self - 1) (f_start self))
    as [|gene genes]; [congruence|].
  cbn [nonempty].
  replace (f_start self <? f_start self) with false
    by (symmetry; apply Z.ltb_irrefl).
  replace (f_start self >? f_end self) with false
    by (symmetry; rewrite Z.gtb_ltb; apply Z.ltb_ge; lia).
  reflexivity.
Qed.

(** A not-allowed record chr1:90-100, just before the feature
    chr1:100-110. *)
Definition adjacent_gene : BedTool :=
  [mkInterval "chr1" 90 100 "gene" "+" 0].

Lemma zero_window_UnboundLocalError_witness :
  bedextract adjacent_gene (f_chrom short_feature)
             (f_start short_feature - 1) (f_start short_feature) <> [] /\
  random_flanking_regions short_feature adjacent_gene 10000 0 draws_one
  = Raise UnboundLocalError.
Proof.
  assert (Hov : bedextract adjacent_gene (f_chrom short_feature)
                  (f_start short_feature - 1) (f_start short_feature) <> [])
    by discriminate.
  split; [exact Hov|].
  apply (zero_window_UnboundLocalError short_feature adjacent_gene 10000
           draws_one); [cbn; lia | exact Hov | reflexivity].
Defined.
